(** * brainfuck.py: text generator, hex transcoder and interpreter

    A shallow embedding of [src/brainfuck.py].  Python [str] values are
    lists of code points, [bytes] values are lists of integers, the
    [jumps] dict is a [gmap Z Z], the [BF_COMMANDS] set is a [gset Z],
    Python exceptions are values of [exn], and the [while] loop of the
    interpreter is a step function iterated with fuel. *)

From Stdlib Require Import ZArith Lia.
From stdpp Require Import base decidable option list sorting gmap strings.

Local Open Scope Z_scope.

(** ** Python values *)

(** A [str] is the sequence of its code points ([ord] of each character);
    a [bytes] object is the sequence of its byte values. *)
Abbreviation str := (list Z) (only parsing).
Abbreviation bytes := (list Z) (only parsing).

(** Code points of a literal, to write programs the way the source does. *)
Fixpoint lit (s : string) : str :=
  match s with
  | EmptyString => []
  | String a s' => Z.of_N (Ascii.N_of_ascii a) :: lit s'
  end.

(** The exceptions the module can raise. *)
Inductive exn : Type :=
  | FromhexValueError            (* bytes.fromhex: non-hexadecimal number found *)
  | UnicodeDecodeError           (* bytes.decode("ascii"): byte outside 0..127 *)
  | UnicodeEncodeError           (* str.encode: character outside the codec *)
  | UnmatchedClose (i : Z)       (* ValueError("Unmatched ']' at position i") *)
  | UnmatchedOpen (i : Z)        (* ValueError("Unmatched '[' at position i") *)
  | IndexError                   (* list index out of range *)
  | KeyError                     (* dict key missing *)
  | ChrValueError.               (* chr() arg not in range(0x110000) *)

Inductive result (A : Type) : Type :=
  | Ok (a : A)
  | Raise (e : exn).
Arguments Ok {A} a.
Arguments Raise {A} e.

Definition bind {A B} (r : result A) (k : A → result B) : result B :=
  match r with
  | Ok a => k a
  | Raise e => Raise e
  end.

Global Instance result_bind : MBind result := λ A B k r, bind r k.
Global Instance result_ret : MRet result := λ A a, Ok a.

(** [len(l)] as a Python int. *)
Definition len {A} (l : list A) : Z := Z.of_nat (length l).

(** [l[i]]: a negative index counts from the end; out of range raises. *)
Definition py_getitem {A} (l : list A) (i : Z) : result A :=
  let k := if i <? 0 then i + len l else i in
  if k <? 0 then Raise IndexError
  else match l !! Z.to_nat k with
       | Some x => Ok x
       | None => Raise IndexError
       end.

(** [l[i] = x]. *)
Definition py_setitem {A} (l : list A) (i : Z) (x : A) : result (list A) :=
  let k := if i <? 0 then i + len l else i in
  if (k <? 0) || (len l <=? k) then Raise IndexError
  else Ok (<[Z.to_nat k := x]> l).

(** [l.pop()]: removes and returns the last element. *)
Definition py_pop {A} (l : list A) : result (list A * A) :=
  match last l with
  | Some x => Ok (removelast l, x)
  | None => Raise IndexError
  end.

(** [d[k]] on a dict. *)
Definition dict_getitem (d : gmap Z Z) (k : Z) : result Z :=
  match d !! k with
  | Some v => Ok v
  | None => Raise KeyError
  end.

(** [chr(v)]. *)
Definition chr (v : Z) : result Z :=
  if (0 <=? v) && (v <? 1114112) then Ok v else Raise ChrValueError.

(** [s * n] for a string [s] and an int [n]. *)
Definition str_mul (s : str) (n : Z) : str :=
  mjoin (replicate (Z.to_nat n) s).

(** [s.encode("ascii")], [s.encode("latin1")] and [b.decode("ascii")]:
    the identity on values below the codec's limit, an error otherwise. *)
Definition in_codec (limit : Z) (c : Z) : bool := (0 <=? c) && (c <? limit).

Definition encode_ascii (s : str) : result bytes :=
  if forallb (in_codec 128) s then Ok s else Raise UnicodeEncodeError.

Definition encode_latin1 (s : str) : result bytes :=
  if forallb (in_codec 256) s then Ok s else Raise UnicodeEncodeError.

Definition decode_ascii (b : bytes) : result str :=
  if forallb (in_codec 128) b then Ok b else Raise UnicodeDecodeError.

(** ** Hexadecimal digits *)

(** ["0123456789abcdef"[d]] *)
Definition hexdigit (d : Z) : Z := if d <? 10 then 48 + d else 87 + d.

(** Value of a hexadecimal digit of either case. *)
Definition hexval (c : Z) : option Z :=
  if (48 <=? c) && (c <=? 57) then Some (c - 48)
  else if (97 <=? c) && (c <=? 102) then Some (c - 87)
  else if (65 <=? c) && (c <=? 70) then Some (c - 55)
  else None.

Definition is_hexdigit (c : Z) : bool :=
  match hexval c with Some _ => true | None => false end.

(** ASCII whitespace: tab, newline, vertical tab, form feed, carriage
    return and space. *)
Definition is_space (c : Z) : bool :=
  ((9 <=? c) && (c <=? 13)) || (c =? 32).

(** [bytes.hex()]: two lowercase digits per byte, high nibble first. *)
Definition bytes_hex (b : bytes) : str :=
  mjoin (map (λ x, [hexdigit (Z.shiftr x 4); hexdigit (Z.land x 15)]) b).

(** [bytes.fromhex(s)]: two hexadecimal digits per byte; ASCII whitespace
    before a pair (and at the end) is skipped; anything else raises. *)
Fixpoint fromhex (s : str) : result bytes :=
  match s with
  | [] => Ok []
  | c :: s' =>
      if is_space c then fromhex s'
      else match hexval c, s' with
           | Some top, d :: s'' =>
               match hexval d with
               | Some bot =>
                   match fromhex s'' with
                   | Ok b => Ok (Z.shiftl top 4 + bot :: b)
                   | Raise e => Raise e
                   end
               | None => Raise FromhexValueError
               end
           | _, _ => Raise FromhexValueError
           end
  end.

(** [str.lower()] on the ASCII letters (the only cased characters that
    occur in a string of hexadecimal digits). *)
Definition lower (s : str) : str :=
  map (λ c, if (65 <=? c) && (c <=? 90) then c + 32 else c) s.

(** ** Generator *)

(** One iteration of the [for ch in text] loop on the pair [(code, curr)]. *)
Definition text_to_brainfuck_body (acc : list str * Z) (ch : Z) : list str * Z :=
  let '(code, curr) := acc in
  let target := ch in
  let delta := target - curr in
  let code :=
    if 0 <? delta then code ++ [str_mul (lit "+") delta]
    else if delta <? 0 then code ++ [str_mul (lit "-") (- delta)]
    else code in
  (code ++ [lit "."], target).

Definition text_to_brainfuck (text : str) : str :=
  mjoin (fst (foldl text_to_brainfuck_body ([], 0) text)).

(** ** Transcoder *)

Definition brainfuck_to_hex (bf_code : str) : result str :=
  b ← encode_ascii bf_code; Ok (bytes_hex b).

Definition hex_to_brainfuck (hex_str : str) : result str :=
  b ← fromhex hex_str; decode_ascii b.

(** ** Interpreter *)

Definition BF_COMMANDS : gset Z := list_to_set (lit "+-<>[].,").

Definition filter_commands (code : str) : str :=
  filter (λ c, c ∈ BF_COMMANDS) code.

(** The [for i, c in enumerate(filtered)] loop, from index [i] on, on the
    loop-carried pair [(jumps, stack)].  [stack] is the Python list: the
    most recently appended position is its last element. *)
Fixpoint scan_brackets (l : str) (i : Z) (jumps : gmap Z Z) (stack : list Z)
  : result (gmap Z Z * list Z) :=
  match l with
  | [] => Ok (jumps, stack)
  | c :: l' =>
      if c =? 91 then scan_brackets l' (i + 1) jumps (stack ++ [i])
      else if c =? 93 then
        match stack with
        | [] => Raise (UnmatchedClose i)
        | _ =>
            '(stack', j) ← py_pop stack;
            scan_brackets l' (i + 1) (<[j := i]> (<[i := j]> jumps)) stack'
        end
      else scan_brackets l' (i + 1) jumps stack
  end.

(** Lines 49-62: the jump table, or the bracket error. *)
Definition build_jumps (filtered : str) : result (gmap Z Z) :=
  '(jumps, stack) ← scan_brackets filtered 0 ∅ [];
  match stack with
  | [] => Ok jumps
  | _ => p ← py_getitem stack (-1); Raise (UnmatchedOpen p)
  end.

Record state : Type := State {
  tape : list Z;
  ptr : Z;
  pc : Z;
  out_chars : list Z;
  in_buf : list Z
}.

Definition initial_state (in_buf : list Z) : state :=
  {| tape := [0]; ptr := 0; pc := 0; out_chars := []; in_buf := in_buf |}.

Definition set_cell (st : state) (v : Z) : result state :=
  t ← py_setitem (tape st) (ptr st) v;
  Ok {| tape := t; ptr := ptr st; pc := pc st;
        out_chars := out_chars st; in_buf := in_buf st |}.

Definition set_pc (st : state) (p : Z) : state :=
  {| tape := tape st; ptr := ptr st; pc := p;
     out_chars := out_chars st; in_buf := in_buf st |}.

(** The [if]/[elif] chain of the loop body, before [pc += 1]. *)
Definition dispatch (jumps : gmap Z Z) (c : Z) (st : state) : result state :=
  if c =? 62 then                                       (* > *)
    let ptr' := ptr st + 1 in
    Ok {| tape := if ptr' =? len (tape st) then tape st ++ [0] else tape st;
          ptr := ptr'; pc := pc st;
          out_chars := out_chars st; in_buf := in_buf st |}
  else if c =? 60 then                                  (* < *)
    if ptr st =? 0 then
      Ok {| tape := 0 :: tape st; ptr := ptr st; pc := pc st;
            out_chars := out_chars st; in_buf := in_buf st |}
    else
      Ok {| tape := tape st; ptr := ptr st - 1; pc := pc st;
            out_chars := out_chars st; in_buf := in_buf st |}
  else if c =? 43 then                                  (* + *)
    v ← py_getitem (tape st) (ptr st);
    set_cell st (Z.land (v + 1) 255)
  else if c =? 45 then                                  (* - *)
    v ← py_getitem (tape st) (ptr st);
    set_cell st (Z.land (v - 1) 255)
  else if c =? 46 then                                  (* . *)
    v ← py_getitem (tape st) (ptr st);
    ch ← chr v;
    Ok {| tape := tape st; ptr := ptr st; pc := pc st;
          out_chars := out_chars st ++ [ch]; in_buf := in_buf st |}
  else if c =? 44 then                                  (* , *)
    match in_buf st with
    | b :: rest =>
        t ← py_setitem (tape st) (ptr st) b;
        Ok {| tape := t; ptr := ptr st; pc := pc st;
              out_chars := out_chars st; in_buf := rest |}
    | [] => set_cell st 0
    end
  else if c =? 91 then                                  (* [ *)
    v ← py_getitem (tape st) (ptr st);
    if v =? 0 then j ← dict_getitem jumps (pc st); Ok (set_pc st j)
    else Ok st
  else if c =? 93 then                                  (* ] *)
    v ← py_getitem (tape st) (ptr st);
    if negb (v =? 0) then j ← dict_getitem jumps (pc st); Ok (set_pc st j)
    else Ok st
  else Ok st.

(** One iteration of the [while] loop. *)
Definition step (filtered : str) (jumps : gmap Z Z) (st : state) : result state :=
  c ← py_getitem filtered (pc st);
  st' ← dispatch jumps c st;
  Ok (set_pc st' (pc st' + 1)).

(** What a call of [run_brainfuck] does: return a string, raise, or still
    be running when the fuel (a bound on loop iterations) is used up. *)
Inductive outcome : Type :=
  | Returned (s : str)
  | Raised (e : exn)
  | OutOfFuel.

(** The [while pc < len(filtered)] loop and the final [join]. *)
Fixpoint exec (filtered : str) (jumps : gmap Z Z) (fuel : nat) (st : state) : outcome :=
  if pc st <? len filtered then
    match fuel with
    | O => OutOfFuel
    | S fuel' =>
        match step filtered jumps st with
        | Ok st' => exec filtered jumps fuel' st'
        | Raise e => Raised e
        end
    end
  else Returned (out_chars st).

(** Everything [run_brainfuck] does before the loop (lines 49-68). *)
Definition prepare (code inp : str) : result (str * gmap Z Z * list Z) :=
  let filtered := filter_commands code in
  jumps ← build_jumps filtered;
  in_buf ← encode_latin1 inp;
  Ok (filtered, jumps, in_buf).

Definition run_brainfuck (fuel : nat) (code inp : str) : outcome :=
  match prepare code inp with
  | Ok (filtered, jumps, in_buf) =>
      exec filtered jumps fuel (initial_state in_buf)
  | Raise e => Raised e
  end.

(** ** Facade *)

Definition encode_to_hex (text : str) : result str :=
  let bf := text_to_brainfuck text in
  brainfuck_to_hex bf.

Definition decode_from_hex (fuel : nat) (hex_str : str) : outcome :=
  match hex_to_brainfuck hex_str with
  | Ok bf => run_brainfuck fuel bf []
  | Raise e => Raised e
  end.

(** ** Vocabulary of the specifications *)

(** *** Ranges *)

Definition byte_range (x : Z) : Prop := 0 ≤ x < 256.
Definition ascii_range (x : Z) : Prop := 0 ≤ x < 128.

(** *** Hex strings *)

(** Some digit pair of [h] denotes a byte value of 128 or more: its first
    digit is 8 or above. *)
Fixpoint has_high_pair (h : str) : bool :=
  match h with
  | a :: _ :: l =>
      match hexval a with
      | Some v => (8 <=? v) || has_high_pair l
      | None => has_high_pair l
      end
  | _ => false
  end.

Definition no_space (h : str) : Prop := Forall (λ c, is_space c = false) h.
Definition all_hexdigits (h : str) : Prop := Forall (λ c, is_hexdigit c = true) h.
Definition some_non_hexdigit (h : str) : Prop := Exists (λ c, is_hexdigit c = false) h.

(** *** Bracket resolution *)

(** The jump table serves every bracket of the program and points into
    the program. *)
Record jumps_ok (filtered : str) (jumps : gmap Z Z) : Prop := {
  jumps_range : ∀ k v, jumps !! k = Some v → 0 ≤ v < len filtered;
  jumps_total : ∀ (n : nat) c,
    filtered !! n = Some c → c = 91 ∨ c = 93 → is_Some (jumps !! Z.of_nat n)
}.

(** Loop invariant of the scan, with [i] characters of [full] consumed. *)
Record scan_inv (full : str) (i : Z) (jumps : gmap Z Z) (stack : list Z) : Prop := {
  si_range : ∀ k v, jumps !! k = Some v → 0 ≤ v < i;
  si_sorted : StronglySorted Z.lt stack;
  si_stack : Forall (λ p, 0 ≤ p < i ∧ py_getitem full p = Ok 91) stack;
  si_total : ∀ (n : nat) c,
    Z.of_nat n < i → full !! n = Some c → c = 91 ∨ c = 93 →
    is_Some (jumps !! Z.of_nat n) ∨ Z.of_nat n ∈ stack
}.

(** *** Execution *)

(** States the loop can be in: [reaches st st'] when some number of
    iterations of the [while] loop leads from [st] to [st']. *)
Inductive reaches (filtered : str) (jumps : gmap Z Z) : state → state → Prop :=
  | reaches_refl st : reaches filtered jumps st st
  | reaches_step st st' st'' :
      pc st < len filtered →
      step filtered jumps st = Ok st' →
      reaches filtered jumps st' st'' →
      reaches filtered jumps st st''.

(** Invariant of the loop. *)
Record state_ok (st : state) : Prop := {
  ok_tape : Forall byte_range (tape st);
  ok_ptr : 0 ≤ ptr st < len (tape st);
  ok_pc : 0 ≤ pc st;
  ok_in_buf : Forall byte_range (in_buf st)
}.

(** *** Generated programs *)

(** The instructions emitted for one character: the [+]/[-] delta. *)
Definition delta_code (curr target : Z) : str :=
  let delta := target - curr in
  if 0 <? delta then replicate (Z.to_nat delta) 43
  else if delta <? 0 then replicate (Z.to_nat (- delta)) 45
  else [].

(** The generated program as a recursion on the text. *)
Fixpoint emit (curr : Z) (text : str) : str :=
  match text with
  | [] => []
  | ch :: rest => delta_code curr ch ++ 46 :: emit ch rest
  end.

(** The generated program consists of [+], [-] and [.] only. *)
Definition plain (c : Z) : Prop := c = 43 ∨ c = 45 ∨ c = 46.

(** *** Coverage beyond the claims *)

(** The instruction at position [k] of a program is [c]. *)
Definition at_pos (l : str) (k : Z) (c : Z) : Prop :=
  0 ≤ k ∧ l !! Z.to_nat k = Some c.

(** A lowercase hexadecimal digit: [0-9a-f]. *)
Definition lower_hexdigit (c : Z) : Prop := 48 ≤ c ≤ 57 ∨ 97 ≤ c ≤ 102.

(** The string without its ASCII whitespace. *)
Definition strip_spaces (h : str) : str := filter (λ c, is_space c = false) h.

(** Total distance the cell value travels while printing [text] from
    [curr]: the sum of the absolute differences of consecutive code
    points. *)
Fixpoint variation (curr : Z) (text : str) : Z :=
  match text with
  | [] => 0
  | ch :: rest => Z.abs (ch - curr) + variation ch rest
  end.

(** Number of output instructions in a program. *)
Definition count_dots (l : str) : nat := length (filter (λ c, c = 46) l).

(** Bracket balance by counting: the nesting depth after the scan, or the
    position of the first close bracket met at depth 0. *)
Fixpoint bracket_depth (l : str) (i : Z) (depth : nat) : result nat :=
  match l with
  | [] => Ok depth
  | c :: l' =>
      if c =? 91 then bracket_depth l' (i + 1) (S depth)
      else if c =? 93 then
        match depth with
        | O => Raise (UnmatchedClose i)
        | S d => bracket_depth l' (i + 1) d
        end
      else bracket_depth l' (i + 1) depth
  end.

(** The jump table pairs brackets: every entry has its converse, and goes
    from an open bracket to a later close bracket or back. *)
Definition paired (full : str) (jumps : gmap Z Z) : Prop :=
  ∀ k v, jumps !! k = Some v →
    jumps !! v = Some k ∧
    ((at_pos full k 91 ∧ at_pos full v 93 ∧ k < v) ∨
     (at_pos full k 93 ∧ at_pos full v 91 ∧ v < k)).

(** Second invariant of the scan: the table pairs brackets seen so far and
    holds no pending position. *)
Record scan_paired (full : str) (i : Z) (jumps : gmap Z Z) (stack : list Z) : Prop := {
  sp_paired : paired full jumps;
  sp_keys : ∀ k v, jumps !! k = Some v → 0 ≤ k < i;
  sp_pending : ∀ p, p ∈ stack → jumps !! p = None
}.

(** The state with its input buffer replaced. *)
Definition with_in_buf (st : state) (buf : list Z) : state :=
  {| tape := tape st; ptr := ptr st; pc := pc st;
     out_chars := out_chars st; in_buf := buf |}.

(** ** Tactics *)

(** Case analysis on every integer comparison in sight. *)
Ltac zcases :=
  repeat match goal with
    | |- context [?a <? ?b] => destruct (Z.ltb_spec a b)
    | |- context [?a <=? ?b] => destruct (Z.leb_spec a b)
    | |- context [?a =? ?b] => destruct (Z.eqb_spec a b)
    | H : context [?a <? ?b] |- _ => destruct (Z.ltb_spec a b)
    | H : context [?a <=? ?b] |- _ => destruct (Z.leb_spec a b)
    | H : context [?a =? ?b] |- _ => destruct (Z.eqb_spec a b)
    end;
  simpl in *.

(** Closes one conjunct of the effects of an instruction. *)
Ltac effects :=
  first [ lia
        | by left
        | right; split; [lia | done]
        | right; split; [by auto | done] ].

(** ** Sanity checks on concrete inputs *)

Example lit_commands : lit "+-<>[].," = [43; 45; 60; 62; 91; 93; 46; 44].
Proof. vm_compute. reflexivity. Qed.

Example generate_AB : text_to_brainfuck (lit "AB") = str_mul (lit "+") 65 ++ lit ".+.".
Proof. vm_compute. reflexivity. Qed.

Example hex_of_plus_dot : brainfuck_to_hex (lit "+.") = Ok (lit "2b2e").
Proof. vm_compute. reflexivity. Qed.

Example fromhex_upper : hex_to_brainfuck (lit "2B2E") = Ok (lit "+.").
Proof. vm_compute. reflexivity. Qed.

Example fromhex_odd : hex_to_brainfuck (lit "abc") = Raise FromhexValueError.
Proof. vm_compute. reflexivity. Qed.

Example fromhex_zz : hex_to_brainfuck (lit "zz") = Raise FromhexValueError.
Proof. vm_compute. reflexivity. Qed.

Example fromhex_skips_whitespace : hex_to_brainfuck (lit "2b 2e") = Ok (lit "+.").
Proof. vm_compute. reflexivity. Qed.

Example run_echo : run_brainfuck 5 (lit ",.") (lit "A") = Returned (lit "A").
Proof. vm_compute. reflexivity. Qed.

Example run_echo_empty : run_brainfuck 5 (lit ",.") [] = Returned [0].
Proof. vm_compute. reflexivity. Qed.

Example run_loop : run_brainfuck 100 (lit "++[>+++<-]>.") [] = Returned [6].
Proof. vm_compute. reflexivity. Qed.

Example encode_decode_Hi :
  ∃ h, encode_to_hex (lit "Hi") = Ok h ∧ decode_from_hex 200 h = Returned (lit "Hi").
Proof. eexists. split; [vm_compute; reflexivity | vm_compute; reflexivity]. Qed.

(** ** Arithmetic of bytes and hexadecimal digits *)

Lemma shiftr4 x : Z.shiftr x 4 = x / 16.
Proof. by rewrite Z.shiftr_div_pow2. Qed.

Lemma land15 x : Z.land x 15 = x mod 16.
Proof. change 15 with (Z.ones 4). by rewrite Z.land_ones. Qed.

Lemma shiftl4 x : Z.shiftl x 4 = x * 16.
Proof. by rewrite Z.shiftl_mul_pow2. Qed.

Lemma land255 x : Z.land x 255 = x mod 256.
Proof. change 255 with (Z.ones 8). by rewrite Z.land_ones. Qed.

Lemma hexval_hexdigit d : 0 ≤ d < 16 → hexval (hexdigit d) = Some d.
Proof. intros. unfold hexval, hexdigit. zcases; f_equal; lia. Qed.

Lemma hexdigit_not_space d : 0 ≤ d < 16 → is_space (hexdigit d) = false.
Proof. intros. unfold is_space, hexdigit. zcases; lia. Qed.

Lemma hexval_range c v : hexval c = Some v → 0 ≤ v < 16.
Proof. unfold hexval. intros. zcases; simplify_eq; lia. Qed.

Lemma hexval_not_space c v : hexval c = Some v → is_space c = false.
Proof. unfold hexval, is_space. intros. zcases; simplify_eq; lia. Qed.

(** The lowercase digit of a digit's value is the digit, lowercased. *)
Lemma hexdigit_hexval c v :
  hexval c = Some v → hexdigit v = (if (65 <=? c) && (c <=? 90) then c + 32 else c).
Proof. unfold hexval, hexdigit. intros. zcases; simplify_eq; lia. Qed.

Lemma byte_nibbles top bot :
  0 ≤ top < 16 → 0 ≤ bot < 16 →
  Z.shiftr (Z.shiftl top 4 + bot) 4 = top ∧ Z.land (Z.shiftl top 4 + bot) 15 = bot.
Proof.
  intros. rewrite shiftr4, land15, shiftl4. split.
  - rewrite Z.div_add_l by lia. rewrite Z.div_small; lia.
  - rewrite Z.add_comm, Z.mod_add by lia. apply Z.mod_small. lia.
Qed.

Lemma nibbles_byte x :
  0 ≤ x < 256 →
  0 ≤ Z.shiftr x 4 < 16 ∧ 0 ≤ Z.land x 15 < 16 ∧
  Z.shiftl (Z.shiftr x 4) 4 + Z.land x 15 = x.
Proof.
  intros. rewrite shiftl4, shiftr4, land15.
  pose proof (Z.div_mod x 16). pose proof (Z.mod_pos_bound x 16).
  assert (0 ≤ x / 16 < 16) by (split; [apply Z.div_pos | apply Z.div_lt_upper_bound]; lia).
  lia.
Qed.

(** Induction on a list two elements at a time. *)
Lemma pair_ind {A} (P : list A → Prop) :
  P [] → (∀ a, P [a]) → (∀ a b l, P l → P (a :: b :: l)) → ∀ l, P l.
Proof.
  intros H0 H1 H2.
  assert (∀ l, P l ∧ ∀ a, P (a :: l)) as H; [| intros l; apply H].
  induction l as [| b l [IH1 IH2]]; split; auto.
Qed.

(** ** Transcoder *)

Lemma forallb_in_codec limit (s : list Z) :
  forallb (in_codec limit) s = true ↔ Forall (λ c, 0 ≤ c < limit) s.
Proof.
  unfold in_codec. induction s as [| c s IH]; cbn [forallb].
  - split; [constructor | done].
  - rewrite andb_true_iff, Forall_cons, IH.
    split; intros [H ?]; (split; [| done]); zcases; lia.
Qed.

Lemma encode_ascii_ok s : Forall ascii_range s → encode_ascii s = Ok s.
Proof.
  intros H. unfold encode_ascii.
  by rewrite (proj2 (forallb_in_codec 128 s) H).
Qed.

Lemma decode_ascii_ok b : Forall ascii_range b → decode_ascii b = Ok b.
Proof.
  intros H. unfold decode_ascii.
  by rewrite (proj2 (forallb_in_codec 128 b) H).
Qed.

Lemma encode_latin1_ok s : Forall byte_range s → encode_latin1 s = Ok s.
Proof.
  intros H. unfold encode_latin1.
  by rewrite (proj2 (forallb_in_codec 256 s) H).
Qed.

Lemma encode_latin1_raises s :
  Exists (λ c, 255 < c) s → encode_latin1 s = Raise UnicodeEncodeError.
Proof.
  intros H. unfold encode_latin1.
  destruct (forallb (in_codec 256) s) eqn:E; [| done].
  apply forallb_in_codec in E. apply Exists_exists in H as (c & Hc & Hgt).
  rewrite Forall_forall in E. specialize (E c Hc). lia.
Qed.

Lemma bytes_hex_cons x b :
  bytes_hex (x :: b) = hexdigit (Z.shiftr x 4) :: hexdigit (Z.land x 15) :: bytes_hex b.
Proof. done. Qed.

Lemma fromhex_bytes_hex b : Forall byte_range b → fromhex (bytes_hex b) = Ok b.
Proof.
  induction 1 as [| x b Hx _ IH]; [done |].
  destruct (nibbles_byte x Hx) as (Hhi & Hlo & Heq).
  rewrite bytes_hex_cons. cbn [fromhex].
  rewrite (hexdigit_not_space _ Hhi), !hexval_hexdigit by done.
  by rewrite IH, Heq.
Qed.

Lemma ascii_byte_range b : Forall ascii_range b → Forall byte_range b.
Proof. intros H. eapply Forall_impl; [done |]. unfold ascii_range, byte_range. lia. Qed.

(** The hex encoding of ASCII source decodes to the source. *)
Lemma hex_roundtrip p :
  Forall ascii_range p →
  brainfuck_to_hex p = Ok (bytes_hex p) ∧ hex_to_brainfuck (bytes_hex p) = Ok p.
Proof.
  intros Hp. unfold brainfuck_to_hex, hex_to_brainfuck.
  rewrite encode_ascii_ok by done. split; [done |].
  rewrite fromhex_bytes_hex by by apply ascii_byte_range.
  cbn. by apply decode_ascii_ok.
Qed.

Lemma all_hexdigits_no_space h : all_hexdigits h → no_space h.
Proof.
  intros H. eapply Forall_impl; [exact H |]. cbn. intros c Hc.
  unfold is_hexdigit in Hc. destruct (hexval c) eqn:E; [| done].
  by eapply hexval_not_space.
Qed.

Lemma all_hexdigits_not_some h : all_hexdigits h → ¬ some_non_hexdigit h.
Proof.
  intros Hall Hex. apply Exists_exists in Hex as (c & Hc & Hn).
  unfold all_hexdigits in Hall. rewrite Forall_forall in Hall.
  specialize (Hall c Hc). congruence.
Qed.

(** What [bytes.fromhex] does on a string without whitespace. *)
Lemma fromhex_cases h :
  no_space h →
  match fromhex h with
  | Ok b =>
      Nat.Even (length h) ∧ all_hexdigits h ∧ Forall byte_range b ∧
      bytes_hex b = lower h ∧
      forallb (in_codec 128) b = negb (has_high_pair h)
  | Raise e =>
      e = FromhexValueError ∧ (Nat.Odd (length h) ∨ some_non_hexdigit h)
  end.
Proof.
  unfold no_space, all_hexdigits, some_non_hexdigit.
  induction h as [| a | a c h IH] using pair_ind; intros Hsp.
  - cbn. repeat split; try constructor. by exists 0%nat.
  - apply Forall_cons in Hsp as [Ha _]. cbn. rewrite Ha.
    assert (Nat.Odd 1) by (by exists 0%nat).
    destruct (hexval a); auto.
  - apply Forall_cons in Hsp as [Ha Hsp]. apply Forall_cons in Hsp as [Hc Hsp].
    specialize (IH Hsp). cbn [fromhex has_high_pair]. rewrite Ha.
    destruct (hexval a) as [top |] eqn:Etop; cycle 1.
    { split; [done |]. right. apply Exists_cons_hd. unfold is_hexdigit. by rewrite Etop. }
    destruct (hexval c) as [bot |] eqn:Ebot; cycle 1.
    { split; [done |]. right. apply Exists_cons_tl, Exists_cons_hd.
      unfold is_hexdigit. by rewrite Ebot. }
    pose proof (hexval_range _ _ Etop) as Rtop.
    pose proof (hexval_range _ _ Ebot) as Rbot.
    destruct (fromhex h) as [b | e].
    + destruct IH as (Hev & Hall & Hb & Hhex & Hcodec).
      destruct (byte_nibbles top bot Rtop Rbot) as [Hhi Hlo].
      split_and!.
      * cbn [length]. destruct Hev as [k Hk]. exists (S k). lia.
      * repeat apply Forall_cons_2; try done; unfold is_hexdigit; by rewrite ?Etop, ?Ebot.
      * apply Forall_cons_2; [| done]. unfold byte_range. rewrite shiftl4. lia.
      * rewrite bytes_hex_cons, Hhi, Hlo, Hhex. cbn [lower map].
        by rewrite (hexdigit_hexval _ _ Etop), (hexdigit_hexval _ _ Ebot).
      * cbn [forallb]. rewrite Hcodec. unfold in_codec. rewrite shiftl4.
        zcases; try lia; by destruct (has_high_pair h).
    + destruct IH as [-> IH]. split; [done |].
      destruct IH as [[k Hk] | IH].
      * left. exists (S k). cbn [length]. lia.
      * right. by do 2 apply Exists_cons_tl.
Qed.

(** [hex_to_brainfuck] on a string without whitespace: the three causes
    of failure, and the result otherwise. *)
Lemma hex_to_brainfuck_cases h :
  no_space h →
  match hex_to_brainfuck h with
  | Ok s =>
      Nat.Even (length h) ∧ all_hexdigits h ∧ has_high_pair h = false ∧
      brainfuck_to_hex s = Ok (lower h)
  | Raise e =>
      (e = FromhexValueError ∧ (Nat.Odd (length h) ∨ some_non_hexdigit h)) ∨
      (e = UnicodeDecodeError ∧ Nat.Even (length h) ∧ all_hexdigits h ∧
       has_high_pair h = true)
  end.
Proof.
  intros Hsp. pose proof (fromhex_cases h Hsp) as H.
  unfold hex_to_brainfuck. destruct (fromhex h) as [b | e]; cbn.
  - destruct H as (Hev & Hall & Hb & Hhex & Hcodec).
    unfold decode_ascii. destruct (forallb (in_codec 128) b) eqn:E.
    + split_and!; try done.
      * by destruct (has_high_pair h).
      * unfold brainfuck_to_hex, encode_ascii. rewrite E. cbn. by rewrite Hhex.
    + right. split_and!; try done. by destruct (has_high_pair h).
  - by left.
Qed.

(** ** Python list operations *)

Lemma len_app {A} (l1 l2 : list A) : len (l1 ++ l2) = len l1 + len l2.
Proof. unfold len. rewrite length_app. lia. Qed.

Lemma len_cons {A} (x : A) (l : list A) : len (x :: l) = len l + 1.
Proof. unfold len. cbn [length]. lia. Qed.

Lemma len_nonneg {A} (l : list A) : 0 ≤ len l.
Proof. unfold len. lia. Qed.

Lemma py_getitem_lookup {A} (l : list A) (i : Z) (x : A) :
  0 ≤ i → l !! Z.to_nat i = Some x → py_getitem l i = Ok x.
Proof. intros Hi Hx. unfold py_getitem. zcases; try lia. by rewrite Hx. Qed.

Lemma py_getitem_ok {A} (l : list A) (i : Z) :
  0 ≤ i < len l → ∃ x, l !! Z.to_nat i = Some x ∧ py_getitem l i = Ok x.
Proof.
  intros Hi. destruct (lookup_lt_is_Some_2 l (Z.to_nat i)) as [x Hx].
  { unfold len in Hi. lia. }
  exists x. split; [done |]. apply py_getitem_lookup; [lia | done].
Qed.

Lemma py_getitem_middle {A} (l1 l2 : list A) (x : A) :
  py_getitem (l1 ++ x :: l2) (len l1) = Ok x.
Proof.
  apply py_getitem_lookup; [apply len_nonneg |].
  unfold len. rewrite Nat2Z.id. by apply list_lookup_middle.
Qed.

Lemma py_getitem_last {A} (l : list A) (x : A) : py_getitem (l ++ [x]) (-1) = Ok x.
Proof.
  unfold py_getitem. rewrite len_app. pose proof (len_nonneg l).
  change (len [x]) with 1. zcases; try lia.
  replace (Z.to_nat (-1 + (len l + 1))) with (length l) by (unfold len; lia).
  by rewrite list_lookup_middle.
Qed.

Lemma py_setitem_ok {A} (l : list A) (i : Z) (x : A) :
  0 ≤ i < len l → py_setitem l i x = Ok (<[Z.to_nat i := x]> l).
Proof. intros Hi. unfold py_setitem. zcases; try lia. done. Qed.

Lemma py_pop_snoc {A} (l : list A) (x : A) : py_pop (l ++ [x]) = Ok (l, x).
Proof. unfold py_pop. by rewrite last_snoc, removelast_last. Qed.

(** ** Bracket resolution *)

Lemma scan_inv_init full : scan_inv full 0 ∅ [].
Proof.
  split.
  - intros k v. by rewrite lookup_empty.
  - constructor.
  - constructor.
  - lia.
Qed.

Lemma scan_inv_skip pre c l jumps stack :
  c ≠ 91 → c ≠ 93 →
  scan_inv (pre ++ c :: l) (len pre) jumps stack →
  scan_inv (pre ++ c :: l) (len pre + 1) jumps stack.
Proof.
  intros H1 H2 [Hr Hso Hst Ht]. split; [| done | |].
  - intros k v Hk. specialize (Hr k v Hk). lia.
  - eapply Forall_impl; [exact Hst |]. cbn. intros p [? ?]. split; [lia | done].
  - intros n d Hn Hd Hbr.
    destruct (decide (Z.of_nat n = len pre)) as [E | NE].
    + unfold len in E. apply Nat2Z.inj in E. subst n.
      rewrite list_lookup_middle in Hd by done. simplify_eq. lia.
    + apply (Ht n d); [lia | done | done].
Qed.

Lemma scan_inv_open pre l jumps stack :
  scan_inv (pre ++ 91 :: l) (len pre) jumps stack →
  scan_inv (pre ++ 91 :: l) (len pre + 1) jumps (stack ++ [len pre]).
Proof.
  intros [Hr Hso Hst Ht]. pose proof (len_nonneg pre). split.
  - intros k v Hk. specialize (Hr k v Hk). lia.
  - apply StronglySorted_app_2; [| done | repeat constructor].
    intros a b Ha Hb. apply list_elem_of_singleton in Hb as ->.
    rewrite Forall_forall in Hst. destruct (Hst a Ha). lia.
  - apply Forall_app. split.
    + eapply Forall_impl; [exact Hst |]. cbn. intros p [? ?]. split; [lia | done].
    + apply Forall_singleton. split; [lia |]. apply py_getitem_middle.
  - intros n d Hn Hd Hbr. rewrite elem_of_app, list_elem_of_singleton.
    destruct (decide (Z.of_nat n = len pre)) as [E | NE]; [by right; right |].
    destruct (Ht n d) as [? | ?]; [lia | done | done | by left | by right; left].
Qed.

Lemma scan_inv_close pre l jumps stack j :
  scan_inv (pre ++ 93 :: l) (len pre) jumps (stack ++ [j]) →
  scan_inv (pre ++ 93 :: l) (len pre + 1)
    (<[j := len pre]> (<[len pre := j]> jumps)) stack.
Proof.
  intros [Hr Hso Hst Ht]. pose proof (len_nonneg pre).
  apply Forall_app in Hst as [Hst Hj]. apply Forall_singleton in Hj as [Hj _].
  apply StronglySorted_app_1_l in Hso. split; [| done | |].
  - intros k v. rewrite !lookup_insert. repeat case_decide; intros Hk; simplify_eq; try lia.
    specialize (Hr k v Hk). lia.
  - eapply Forall_impl; [exact Hst |]. cbn. intros p [? ?]. split; [lia | done].
  - intros n d Hn Hd Hbr.
    destruct (decide (Z.of_nat n = len pre)) as [E | NE].
    { left. rewrite E. destruct (decide (j = len pre)) as [-> | Hne].
      - rewrite lookup_insert_eq. eauto.
      - rewrite lookup_insert_ne, lookup_insert_eq by done. eauto. }
    destruct (decide (Z.of_nat n = j)) as [E | NE'].
    { left. rewrite E, lookup_insert_eq. eauto. }
    destruct (Ht n d) as [Hs | Hs]; [lia | done | done | |].
    + left. by rewrite !lookup_insert_ne.
    + apply elem_of_app in Hs as [? | Hs]; [by right |].
      apply list_elem_of_singleton in Hs. done.
Qed.

Lemma scan_brackets_inv l : ∀ pre jumps stack jumps' stack',
  scan_inv (pre ++ l) (len pre) jumps stack →
  scan_brackets l (len pre) jumps stack = Ok (jumps', stack') →
  scan_inv (pre ++ l) (len (pre ++ l)) jumps' stack'.
Proof.
  induction l as [| c l IH]; intros pre jumps stack jumps' stack' Hinv Hscan.
  - cbn in Hscan. simplify_eq. by rewrite app_nil_r in *.
  - assert (Hlen : len pre + 1 = len (pre ++ [c])) by (by rewrite len_app).
    assert (Happ : pre ++ c :: l = (pre ++ [c]) ++ l) by (by rewrite <- app_assoc).
    cbn [scan_brackets] in Hscan.
    destruct (Z.eqb_spec c 91) as [-> | N91].
    { apply scan_inv_open in Hinv. rewrite Hlen, Happ in *. by eapply IH. }
    destruct (Z.eqb_spec c 93) as [-> | N93].
    { destruct stack as [| p stack0 _] using rev_ind; [done |].
      replace (match stack0 ++ [p] with [] => Raise (UnmatchedClose (len pre)) | _ => 
        '(stack', j) ← py_pop (stack0 ++ [p]);
        scan_brackets l (len pre + 1) (<[j := len pre]> (<[len pre := j]> jumps)) stack' end)
        with (scan_brackets l (len pre + 1) (<[p := len pre]> (<[len pre := p]> jumps)) stack0)
        in Hscan by (rewrite py_pop_snoc; by destruct stack0).
      apply scan_inv_close in Hinv. rewrite Hlen, Happ in *. by eapply IH. }
    apply scan_inv_skip in Hinv; [| done | done].
    rewrite Hlen, Happ in *. by eapply IH.
Qed.

Lemma scan_brackets_full filtered jumps stack :
  scan_brackets filtered 0 ∅ [] = Ok (jumps, stack) →
  scan_inv filtered (len filtered) jumps stack.
Proof. intros H. apply (scan_brackets_inv filtered [] ∅ []); [apply scan_inv_init | done]. Qed.

(** [build_jumps] in terms of the scan. *)
Lemma build_jumps_cases filtered :
  match scan_brackets filtered 0 ∅ [] with
  | Ok (jumps, []) => build_jumps filtered = Ok jumps
  | Ok (jumps, stack) =>
      ∃ p, last stack = Some p ∧ build_jumps filtered = Raise (UnmatchedOpen p)
  | Raise e => build_jumps filtered = Raise e
  end.
Proof.
  unfold build_jumps. destruct (scan_brackets filtered 0 ∅ []) as [[jumps stack] | e]; [| done].
  destruct stack as [| p stack _] using rev_ind; [done |].
  assert (∃ q, last (stack ++ [p]) = Some q ∧
    (p ← py_getitem (stack ++ [p]) (-1); Raise (UnmatchedOpen p)) = (Raise (UnmatchedOpen q) : result (gmap Z Z)))
    as H by (exists p; by rewrite last_snoc, py_getitem_last).
  cbn. by destruct (stack ++ [p]).
Qed.

Lemma build_jumps_ok filtered jumps :
  build_jumps filtered = Ok jumps → jumps_ok filtered jumps.
Proof.
  intros Hb. pose proof (build_jumps_cases filtered) as Hc.
  pose proof (scan_brackets_full filtered) as Hs.
  destruct (scan_brackets filtered 0 ∅ []) as [[jumps0 stack] | e]; [| congruence].
  destruct stack.
  - assert (jumps0 = jumps) as -> by congruence.
    destruct (Hs _ _ eq_refl) as [Hr _ _ Ht]. split; [done |].
    intros n c Hn Hbr. destruct (Ht n c) as [? | Hin]; [| done | done | done |].
    + apply lookup_lt_Some in Hn. unfold len. lia.
    + by apply elem_of_nil in Hin.
  - destruct Hc as (p & _ & Hc). congruence.
Qed.

(** ** Execution *)

Lemma initial_state_ok in_buf : Forall byte_range in_buf → state_ok (initial_state in_buf).
Proof.
  intros H. split; cbn; try done.
  apply Forall_singleton. unfold byte_range. lia.
Qed.

Lemma land255_range v : byte_range (Z.land v 255).
Proof. unfold byte_range. rewrite land255. apply Z.mod_pos_bound. lia. Qed.

Lemma chr_byte v : byte_range v → chr v = Ok v.
Proof. unfold byte_range, chr. intros. zcases; try lia. done. Qed.

Lemma current_cell st :
  state_ok st → ∃ v, byte_range v ∧ py_getitem (tape st) (ptr st) = Ok v.
Proof.
  intros [Ht Hp _ _]. destruct (py_getitem_ok (tape st) (ptr st) Hp) as (v & Hv & Hg).
  exists v. split; [| done]. rewrite Forall_forall in Ht.
  apply Ht. by eapply list_elem_of_lookup_2.
Qed.

Lemma set_cell_ok st v :
  state_ok st → byte_range v →
  ∃ st', set_cell st v = Ok st' ∧ state_ok st' ∧ pc st' = pc st ∧
         ptr st' = ptr st ∧ tape st' = <[Z.to_nat (ptr st) := v]> (tape st) ∧
         out_chars st' = out_chars st ∧ in_buf st' = in_buf st.
Proof.
  intros [Ht Hp Hc Hi] Hv. unfold set_cell. rewrite py_setitem_ok by done.
  eexists. split; [done |]. split_and!; try done.
  split; cbn; try done.
  - by apply Forall_insert.
  - unfold len in *. by rewrite length_insert.
Qed.

(** The loop body never raises and keeps the invariant. *)
Lemma dispatch_ok filtered jumps c st :
  jumps_ok filtered jumps → state_ok st →
  filtered !! Z.to_nat (pc st) = Some c →
  ∃ st', dispatch jumps c st = Ok st' ∧ state_ok st' ∧ 0 ≤ pc st'.
Proof.
  intros [Hjr Hjt] Hok Hc.
  destruct (current_cell st Hok) as (v & Hv & Hget).
  pose proof Hok as [Ht Hp Hpc Hi].
  assert (Hjump : c = 91 ∨ c = 93 →
    ∃ j, dict_getitem jumps (pc st) = Ok j ∧ state_ok (set_pc st j)).
  { intros Hbr. destruct (Hjt _ _ Hc Hbr) as [j Hj].
    rewrite Z2Nat.id in Hj by done. exists j. unfold dict_getitem. rewrite Hj.
    split; [done |]. destruct (Hjr _ _ Hj). by split. }
  unfold dispatch. rewrite Hget. cbn [mbind result_bind bind].
  destruct (Z.eqb_spec c 62).
  { eexists. split; [done |]. split; [| done]. split; cbn; try done.
    - destruct (Z.eqb_spec (ptr st + 1) (len (tape st))); [| done].
      apply Forall_app. split; [done |]. apply Forall_singleton. unfold byte_range. lia.
    - destruct (Z.eqb_spec (ptr st + 1) (len (tape st))); [rewrite len_app |];
        change (len [0]) with 1; lia. }
  destruct (Z.eqb_spec c 60).
  { destruct (Z.eqb_spec (ptr st) 0); (eexists; split; [done |]; split; [| done]);
      split; cbn; try done.
    - apply Forall_cons_2; [unfold byte_range; lia | done].
    - rewrite len_cons. lia.
    - lia. }
  destruct (Z.eqb_spec c 43).
  { destruct (set_cell_ok st (Z.land (v + 1) 255) Hok (land255_range _))
      as (st' & -> & Hok' & Hpc' & _). exists st'. split_and!; [done | done | lia]. }
  destruct (Z.eqb_spec c 45).
  { destruct (set_cell_ok st (Z.land (v - 1) 255) Hok (land255_range _))
      as (st' & -> & Hok' & Hpc' & _). exists st'. split_and!; [done | done | lia]. }
  destruct (Z.eqb_spec c 46).
  { rewrite (chr_byte v Hv). cbn. eexists. split; [done |]. by split. }
  destruct (Z.eqb_spec c 44).
  { destruct (in_buf st) as [| b rest] eqn:Ein.
    - destruct (set_cell_ok st 0 Hok) as (st' & -> & Hok' & Hpc' & _);
        [unfold byte_range; lia |]. exists st'. split_and!; [done | done | lia].
    - apply Forall_cons in Hi as [Hb Hrest].
      rewrite py_setitem_ok by done. cbn. eexists. split; [done |].
      split; [| done]. split; cbn; try done.
      + by apply Forall_insert.
      + unfold len in *. by rewrite length_insert. }
  destruct (Z.eqb_spec c 91).
  { destruct Hjump as (j & -> & Hj); [by left |].
    destruct (v =? 0); eexists; (split; [done |]); split; try done. apply Hj. }
  destruct (Z.eqb_spec c 93).
  { destruct Hjump as (j & -> & Hj); [by right |].
    destruct (negb (v =? 0)); eexists; (split; [done |]); split; try done. apply Hj. }
  by exists st.
Qed.

Lemma step_ok filtered jumps st :
  jumps_ok filtered jumps → state_ok st → pc st < len filtered →
  ∃ st', step filtered jumps st = Ok st' ∧ state_ok st'.
Proof.
  intros Hj Hok Hpc. pose proof (ok_pc _ Hok) as Hpc0.
  destruct (py_getitem_ok filtered (pc st) (conj Hpc0 Hpc)) as (c & Hc & Hget).
  destruct (dispatch_ok filtered jumps c st Hj Hok Hc) as (st' & Hd & Hok' & Hpc').
  unfold step. rewrite Hget. cbn. rewrite Hd. cbn.
  eexists. split; [done |]. destruct Hok'. split; cbn; try done. lia.
Qed.

Lemma reaches_ok filtered jumps st st' :
  jumps_ok filtered jumps → reaches filtered jumps st st' →
  state_ok st → state_ok st'.
Proof.
  intros Hj. induction 1 as [| st st1 st2 Hpc Hstep _ IH]; [done |].
  intros Hok. apply IH.
  destruct (step_ok filtered jumps st Hj Hok Hpc) as (st' & Hs & Hok').
  congruence.
Qed.

(** The loop itself raises nothing. *)
Lemma exec_no_raise filtered jumps fuel : ∀ st e,
  jumps_ok filtered jumps → state_ok st →
  exec filtered jumps fuel st ≠ Raised e.
Proof.
  induction fuel as [| fuel IH]; intros st e Hj Hok; cbn [exec];
    destruct (Z.ltb_spec (pc st) (len filtered)) as [Hpc | Hpc]; try done.
  destruct (step_ok filtered jumps st Hj Hok Hpc) as (st' & -> & Hok').
  by apply IH.
Qed.

(** A returning loop has walked through reachable states to one where the
    guard fails, and returns that state's output. *)
Lemma exec_returned filtered jumps fuel : ∀ st out,
  exec filtered jumps fuel st = Returned out →
  ∃ st', reaches filtered jumps st st' ∧ len filtered ≤ pc st' ∧ out_chars st' = out.
Proof.
  induction fuel as [| fuel IH]; intros st out; cbn [exec];
    destruct (Z.ltb_spec (pc st) (len filtered)) as [Hpc | Hpc]; try done.
  1, 3: intros [= <-]; exists st; split_and!; [constructor | done | done].
  destruct (step filtered jumps st) as [st1 | e] eqn:Hs; [| done].
  intros (st' & Hr & Hpc' & Hout)%IH. exists st'. split_and!; try done.
  by eapply reaches_step.
Qed.

(** ** Generator *)

Lemma str_mul_single c n : str_mul [c] n = replicate (Z.to_nat n) c.
Proof.
  unfold str_mul. induction (Z.to_nat n) as [| k IH]; [done |].
  cbn. by rewrite <- IH.
Qed.

Lemma mjoin_snoc (code : list (list Z)) (s : list Z) : mjoin (code ++ [s]) = mjoin code ++ s.
Proof. rewrite join_app. cbn. by rewrite app_nil_r. Qed.

Lemma text_to_brainfuck_body_emit code curr ch :
  mjoin (fst (text_to_brainfuck_body (code, curr) ch)) = mjoin code ++ delta_code curr ch ++ [46]
  ∧ snd (text_to_brainfuck_body (code, curr) ch) = ch.
Proof.
  unfold text_to_brainfuck_body, delta_code. cbn [fst snd]. split; [| done].
  change (lit ".") with [46]. change (lit "+") with [43]. change (lit "-") with [45].
  rewrite mjoin_snoc, !str_mul_single.
  destruct (0 <? ch - curr); [by rewrite mjoin_snoc, <- app_assoc |].
  destruct (ch - curr <? 0); [by rewrite mjoin_snoc, <- app_assoc |].
  done.
Qed.

Lemma foldl_body_emit text : ∀ code curr,
  mjoin (fst (foldl text_to_brainfuck_body (code, curr) text)) = mjoin code ++ emit curr text.
Proof.
  induction text as [| ch rest IH]; intros code curr.
  - cbn. by rewrite app_nil_r.
  - cbn [foldl emit].
    destruct (text_to_brainfuck_body (code, curr) ch) as [code' curr'] eqn:E.
    pose proof (text_to_brainfuck_body_emit code curr ch) as [H1 H2].
    rewrite E in H1, H2. cbn [fst snd] in H1, H2. subst curr'.
    rewrite IH, H1, <- !app_assoc. done.
Qed.

Lemma text_to_brainfuck_emit text : text_to_brainfuck text = emit 0 text.
Proof. unfold text_to_brainfuck. by rewrite foldl_body_emit. Qed.

Lemma delta_code_plain curr target : Forall plain (delta_code curr target).
Proof.
  unfold delta_code, plain.
  repeat case_match; try constructor; apply Forall_replicate; auto.
Qed.

Lemma emit_plain text : ∀ curr, Forall plain (emit curr text).
Proof.
  induction text as [| ch rest IH]; intros curr; cbn [emit]; [constructor |].
  apply Forall_app. split; [apply delta_code_plain |].
  apply Forall_cons_2; [unfold plain; auto | apply IH].
Qed.

Lemma plain_ascii l : Forall plain l → Forall ascii_range l.
Proof.
  intros H. eapply Forall_impl; [exact H |]. unfold plain, ascii_range. cbn. lia.
Qed.

Lemma plain_command c : plain c → c ∈ BF_COMMANDS.
Proof. intros [-> | [-> | ->]]; vm_compute; done. Qed.

Lemma filter_commands_plain l : Forall plain l → filter_commands l = l.
Proof.
  induction 1 as [| c l Hc _ IH]; [done |].
  unfold filter_commands in *. rewrite filter_cons_True by by apply plain_command.
  by rewrite IH.
Qed.

Lemma scan_brackets_plain l : ∀ i jumps stack,
  Forall plain l → scan_brackets l i jumps stack = Ok (jumps, stack).
Proof.
  induction l as [| c l IH]; intros i jumps stack Hl; [done |].
  apply Forall_cons in Hl as [Hc Hl]. cbn [scan_brackets].
  destruct (Z.eqb_spec c 91); [unfold plain in Hc; lia |].
  destruct (Z.eqb_spec c 93); [unfold plain in Hc; lia |].
  by apply IH.
Qed.

Lemma prepare_plain l : Forall plain l → prepare l [] = Ok (l, ∅, []).
Proof.
  intros Hl. unfold prepare, build_jumps.
  rewrite filter_commands_plain, scan_brackets_plain by done. done.
Qed.

(** ** Running straight-line code *)

Lemma exec_step pre c suf jumps fuel st st' :
  pc st = len pre → dispatch jumps c st = Ok st' →
  exec (pre ++ c :: suf) jumps (S fuel) st =
  exec (pre ++ c :: suf) jumps fuel (set_pc st' (pc st' + 1)).
Proof.
  intros Hpc Hd. cbn [exec]. rewrite Hpc.
  destruct (Z.ltb_spec (len pre) (len (pre ++ c :: suf))) as [_ | H].
  - unfold step. rewrite Hpc, py_getitem_middle. cbn. by rewrite Hd.
  - rewrite len_app, len_cons in H. pose proof (len_nonneg suf). lia.
Qed.

Lemma exec_halt filtered jumps fuel st :
  len filtered ≤ pc st → exec filtered jumps fuel st = Returned (out_chars st).
Proof.
  intros H. destruct fuel; cbn [exec];
    destruct (Z.ltb_spec (pc st) (len filtered)); (lia || done).
Qed.

(** The loop body on each of the instructions that touch one cell. *)
Lemma dispatch_plus jumps st v :
  py_getitem (tape st) (ptr st) = Ok v →
  dispatch jumps 43 st = set_cell st (Z.land (v + 1) 255).
Proof. intros H. unfold dispatch. by rewrite H. Qed.

Lemma dispatch_minus jumps st v :
  py_getitem (tape st) (ptr st) = Ok v →
  dispatch jumps 45 st = set_cell st (Z.land (v - 1) 255).
Proof. intros H. unfold dispatch. by rewrite H. Qed.

Lemma dispatch_dot jumps st v :
  py_getitem (tape st) (ptr st) = Ok v → byte_range v →
  dispatch jumps 46 st =
  Ok (State (tape st) (ptr st) (pc st) (out_chars st ++ [v]) (in_buf st)).
Proof. intros H Hv. unfold dispatch. rewrite H. cbn. by rewrite (chr_byte v Hv). Qed.

Lemma one_cell_state_eq v v' p p' out inb :
  v = v' → p = p' → State [v] 0 p out inb = State [v'] 0 p' out inb.
Proof. by intros -> ->. Qed.

(** [k] copies of [+] (with [d = 1]) or of [-] (with [d = -1]) move the
    cell from [v] to [v + d * k], as long as this stays a byte. *)
Lemma exec_run c d k : ∀ pre suf jumps fuel v out inb,
  (c = 43 ∧ d = 1) ∨ (c = 45 ∧ d = -1) →
  byte_range v → byte_range (v + d * Z.of_nat k) →
  exec (pre ++ replicate k c ++ suf) jumps (k + fuel)
    (State [v] 0 (len pre) out inb) =
  exec (pre ++ replicate k c ++ suf) jumps fuel
    (State [v + d * Z.of_nat k] 0 (len pre + Z.of_nat k) out inb).
Proof.
  unfold byte_range.
  induction k as [| k IH]; intros pre suf jumps fuel v out inb Hcd Hv Hvk.
  - cbn [replicate app Nat.add]. f_equal; apply one_cell_state_eq; lia.
  - cbn [replicate app Nat.add].
    assert (Hstep : dispatch jumps c (State [v] 0 (len pre) out inb) =
                    Ok (State [v + d] 0 (len pre) out inb)).
    { destruct Hcd as [[-> ->] | [-> ->]].
      - rewrite (dispatch_plus jumps (State [v] 0 (len pre) out inb) v eq_refl).
        replace (Z.land (v + 1) 255) with (v + 1) by (rewrite land255, Z.mod_small; lia).
        done.
      - rewrite (dispatch_minus jumps (State [v] 0 (len pre) out inb) v eq_refl).
        replace (Z.land (v - 1) 255) with (v + -1) by (rewrite land255, Z.mod_small; lia).
        done. }
    erewrite exec_step; [| done | exact Hstep]. unfold set_pc. cbn [tape ptr pc out_chars in_buf].
    replace (len pre + 1) with (len (pre ++ [c])) by (by rewrite len_app).
    replace (pre ++ c :: replicate k c ++ suf) with ((pre ++ [c]) ++ replicate k c ++ suf)
      by (by rewrite <- app_assoc).
    rewrite IH; [| done | destruct Hcd as [[_ ->] | [_ ->]]; lia ..].
    rewrite len_app. change (len [c]) with 1.
    destruct Hcd as [[_ ->] | [_ ->]]; f_equal; apply one_cell_state_eq; lia.
Qed.

Lemma exec_delta pre suf jumps fuel curr target out inb :
  byte_range curr → byte_range target →
  exec (pre ++ delta_code curr target ++ suf) jumps (length (delta_code curr target) + fuel)
    (State [curr] 0 (len pre) out inb) =
  exec (pre ++ delta_code curr target ++ suf) jumps fuel
    (State [target] 0 (len (pre ++ delta_code curr target)) out inb).
Proof.
  unfold byte_range. intros Hc Ht. rewrite len_app. unfold delta_code.
  destruct (Z.ltb_spec 0 (target - curr)); [| destruct (Z.ltb_spec (target - curr) 0)].
  - rewrite length_replicate, (exec_run 43 1) by (unfold byte_range; auto with lia).
    unfold len. rewrite length_replicate. f_equal; apply one_cell_state_eq; lia.
  - rewrite length_replicate, (exec_run 45 (-1)) by (unfold byte_range; auto with lia).
    unfold len. rewrite length_replicate. f_equal; apply one_cell_state_eq; lia.
  - change (len (@nil Z)) with 0. cbn [length Nat.add].
    f_equal; apply one_cell_state_eq; lia.
Qed.

(** Running the generated program prints the text. *)
Lemma exec_emit text : ∀ pre jumps fuel curr out,
  byte_range curr → Forall byte_range text →
  (length (emit curr text) ≤ fuel)%nat →
  exec (pre ++ emit curr text) jumps fuel (State [curr] 0 (len pre) out []) =
  Returned (out ++ text).
Proof.
  induction text as [| ch rest IH]; intros pre jumps fuel curr out Hcurr Htext Hfuel.
  - cbn [emit]. rewrite !app_nil_r. apply exec_halt. cbn. lia.
  - apply Forall_cons in Htext as [Hch Hrest]. cbn [emit] in *.
    rewrite length_app in Hfuel. cbn [length] in Hfuel.
    replace fuel with (length (delta_code curr ch) +
      S (fuel - length (delta_code curr ch) - 1))%nat by lia.
    rewrite exec_delta by done.
    rewrite (app_assoc pre).
    erewrite exec_step; [| done |]; cycle 1.
    { by apply (dispatch_dot jumps (State [ch] 0 _ out []) ch). }
    unfold set_pc. cbn [tape ptr pc out_chars in_buf].
    replace (len (pre ++ delta_code curr ch) + 1)
      with (len ((pre ++ delta_code curr ch) ++ [46])) by (by rewrite (len_app _ [46])).
    replace ((pre ++ delta_code curr ch) ++ 46 :: emit ch rest)
      with (((pre ++ delta_code curr ch) ++ [46]) ++ emit ch rest)
      by (by rewrite <- (app_assoc _ [46])).
    rewrite IH by (done || lia). by rewrite <- app_assoc.
Qed.

(** The facade round trip, with the fuel that suffices. *)
Lemma encode_decode text fuel :
  Forall byte_range text →
  (length (text_to_brainfuck text) ≤ fuel)%nat →
  encode_to_hex text = Ok (bytes_hex (text_to_brainfuck text)) ∧
  decode_from_hex fuel (bytes_hex (text_to_brainfuck text)) = Returned text.
Proof.
  intros Htext Hfuel. rewrite text_to_brainfuck_emit in *.
  pose proof (emit_plain text 0) as Hplain.
  destruct (hex_roundtrip _ (plain_ascii _ Hplain)) as [Henc Hdec].
  unfold encode_to_hex, decode_from_hex. rewrite text_to_brainfuck_emit.
  split; [done |]. rewrite Hdec. unfold run_brainfuck.
  rewrite prepare_plain by done.
  apply (exec_emit text [] ∅ fuel 0 []); [unfold byte_range; lia | done | done].
Qed.

(** ** The phases of [run_brainfuck] *)

Lemma encode_latin1_inv inp in_buf :
  encode_latin1 inp = Ok in_buf → in_buf = inp ∧ Forall byte_range inp.
Proof.
  unfold encode_latin1. destruct (forallb (in_codec 256) inp) eqn:E; [| done].
  intros [= <-]. split; [done |]. by apply forallb_in_codec in E.
Qed.

Lemma prepare_inv code inp filtered jumps in_buf :
  prepare code inp = Ok (filtered, jumps, in_buf) →
  filtered = filter_commands code ∧ build_jumps filtered = Ok jumps ∧
  in_buf = inp ∧ Forall byte_range inp.
Proof.
  unfold prepare. destruct (build_jumps (filter_commands code)) as [j | e] eqn:Hb; [| done].
  cbn. destruct (encode_latin1 inp) as [ib | e] eqn:He; [| done].
  cbn. intros [= <- <- <-]. apply encode_latin1_inv in He as [-> ?]. done.
Qed.

Lemma prepare_ok code inp filtered jumps in_buf :
  prepare code inp = Ok (filtered, jumps, in_buf) →
  jumps_ok filtered jumps ∧ state_ok (initial_state in_buf).
Proof.
  intros (-> & Hb & -> & Hin)%prepare_inv. split.
  - by apply build_jumps_ok.
  - by apply initial_state_ok.
Qed.

Lemma prepare_intro code inp jumps :
  build_jumps (filter_commands code) = Ok jumps → Forall byte_range inp →
  prepare code inp = Ok (filter_commands code, jumps, inp).
Proof. intros Hb Hin. unfold prepare. rewrite Hb. cbn. by rewrite encode_latin1_ok. Qed.

(** A raised exception comes from the code before the loop. *)
Lemma run_brainfuck_raised fuel code inp e :
  run_brainfuck fuel code inp = Raised e → prepare code inp = Raise e.
Proof.
  unfold run_brainfuck. destruct (prepare code inp) as [[[filtered jumps] in_buf] | e'] eqn:Hp.
  - destruct (prepare_ok _ _ _ _ _ Hp) as [Hj Hok]. intros H.
    by apply exec_no_raise in H.
  - by intros [= ->].
Qed.

Lemma filter_commands_idemp code : filter_commands (filter_commands code) = filter_commands code.
Proof.
  unfold filter_commands. induction code as [| c code IH]; [done |].
  destruct (decide (c ∈ BF_COMMANDS)) as [Hc | Hc].
  - rewrite !filter_cons_True by done. by rewrite IH.
  - by rewrite filter_cons_False by done.
Qed.

Lemma elem_of_BF_COMMANDS c :
  c ∈ BF_COMMANDS ↔ c ∈ [43; 45; 60; 62; 91; 93; 46; 44].
Proof. unfold BF_COMMANDS. by rewrite elem_of_list_to_set. Qed.

Lemma dispatch_comma_cons jumps st b rest :
  in_buf st = b :: rest → 0 ≤ ptr st < len (tape st) →
  dispatch jumps 44 st =
  Ok (State (<[Z.to_nat (ptr st) := b]> (tape st)) (ptr st) (pc st) (out_chars st) rest).
Proof.
  intros Hin Hp. unfold dispatch. cbn. rewrite Hin, py_setitem_ok by done. done.
Qed.

Lemma dispatch_comma_nil jumps st :
  in_buf st = [] → 0 ≤ ptr st < len (tape st) →
  dispatch jumps 44 st =
  Ok (State (<[Z.to_nat (ptr st) := 0]> (tape st)) (ptr st) (pc st) (out_chars st) []).
Proof.
  intros Hin Hp. unfold dispatch. cbn. rewrite Hin. unfold set_cell.
  rewrite py_setitem_ok by done. cbn. by rewrite Hin.
Qed.

(** More fuel does not change a returned result. *)
Lemma exec_fuel_mono filtered jumps fuel : ∀ st out k,
  exec filtered jumps fuel st = Returned out →
  exec filtered jumps (fuel + k) st = Returned out.
Proof.
  induction fuel as [| fuel IH]; intros st out k; cbn [exec Nat.add].
  - destruct (Z.ltb_spec (pc st) (len filtered)) as [Hpc | Hpc]; [done |].
    intros H. by rewrite exec_halt.
  - destruct (pc st <? len filtered); [| done].
    destruct (step filtered jumps st); [apply IH | done].
Qed.

Lemma run_brainfuck_fuel_mono fuel code inp out k :
  run_brainfuck fuel code inp = Returned out →
  run_brainfuck (fuel + k) code inp = Returned out.
Proof.
  unfold run_brainfuck. destruct (prepare code inp) as [[[filtered jumps] in_buf] | e]; [| done].
  apply exec_fuel_mono.
Qed.

(** * The claims *)

(** C1: for every text [T] whose characters all have code points in
    0-255, encoding [T] to a program and then to hex succeeds, and decoding
    that hex string (hex-decoding, then running the program on empty
    input) returns exactly [T]; any fuel of at least the program's length
    suffices. *)
Theorem C1_decode_encode_roundtrip (T : str) :
  Forall byte_range T →
  ∃ h, encode_to_hex T = Ok h ∧
       ∀ fuel, (length (text_to_brainfuck T) ≤ fuel)%nat →
               decode_from_hex fuel h = Returned T.
Proof.
  intros HT. exists (bytes_hex (text_to_brainfuck T)). split.
  - by apply (encode_decode T (length (text_to_brainfuck T))).
  - intros fuel Hfuel. by apply encode_decode.
Qed.

(** The round trip on the text ["Hi"]. *)
Lemma C1_decode_encode_roundtrip_witness :
  Forall byte_range (lit "Hi") ∧
  ∃ h, encode_to_hex (lit "Hi") = Ok h ∧
       ∀ fuel, (length (text_to_brainfuck (lit "Hi")) ≤ fuel)%nat →
               decode_from_hex fuel h = Returned (lit "Hi").
Proof.
  assert (H : Forall byte_range (lit "Hi"))
    by (repeat constructor; unfold byte_range; cbn; lia).
  split; [exact H | exact (C1_decode_encode_roundtrip (lit "Hi") H)].
Defined.

(** C2, as stated, fails: ["ff"] has even length and only hex digits, yet
    [from_hex] raises on it (the byte 255 is not ASCII), so
    [to_hex(from_hex("ff"))] is not ["ff"]. *)
Lemma C2_counterexample :
  Nat.Even (length (lit "ff")) ∧ all_hexdigits (lit "ff") ∧
  (hex_to_brainfuck (lit "ff") ≫= brainfuck_to_hex) = Raise UnicodeDecodeError.
Proof.
  split_and!.
  - by exists 1%nat.
  - by repeat constructor.
  - by vm_compute.
Qed.

(** C2, amended: [from_hex(to_hex(p)) == p] for every ASCII source [p]
    (code points 0-127), and [to_hex(from_hex(h)) == h.lower()] for every
    even-length string [h] of hex digits whose digit pairs all denote byte
    values 0-127; when some pair denotes a byte value 128-255, [from_hex]
    raises a decode error. *)
Theorem C2_transcoder_roundtrip_ascii :
  (∀ p : str, Forall ascii_range p →
     (brainfuck_to_hex p ≫= hex_to_brainfuck) = Ok p) ∧
  (∀ h : str, Nat.Even (length h) → all_hexdigits h → has_high_pair h = false →
     (hex_to_brainfuck h ≫= brainfuck_to_hex) = Ok (lower h)) ∧
  (∀ h : str, Nat.Even (length h) → all_hexdigits h → has_high_pair h = true →
     hex_to_brainfuck h = Raise UnicodeDecodeError).
Proof.
  split_and!.
  - intros p Hp. destruct (hex_roundtrip p Hp) as [-> H]. exact H.
  - intros h Hev Hall Hhigh.
    pose proof (hex_to_brainfuck_cases h (all_hexdigits_no_space h Hall)) as H.
    destruct (hex_to_brainfuck h) as [s | e].
    + destruct H as (_ & _ & _ & Hhex). exact Hhex.
    + destruct H as [(_ & [Hodd | Hnon]) | (_ & _ & _ & Hh)].
      * destruct (Nat.Even_Odd_False _ Hev Hodd).
      * destruct (all_hexdigits_not_some h Hall Hnon).
      * congruence.
  - intros h Hev Hall Hhigh.
    pose proof (hex_to_brainfuck_cases h (all_hexdigits_no_space h Hall)) as H.
    destruct (hex_to_brainfuck h) as [s | e].
    + destruct H as (_ & _ & Hh & _). congruence.
    + destruct H as [(_ & [Hodd | Hnon]) | (-> & _)].
      * destruct (Nat.Even_Odd_False _ Hev Hodd).
      * destruct (all_hexdigits_not_some h Hall Hnon).
      * done.
Qed.

(** The three laws on ["+."], ["2B2E"] and ["2Bfe"]. *)
Lemma C2_transcoder_roundtrip_ascii_witness :
  (Forall ascii_range (lit "+.") ∧
   (brainfuck_to_hex (lit "+.") ≫= hex_to_brainfuck) = Ok (lit "+.")) ∧
  (Nat.Even (length (lit "2B2E")) ∧ all_hexdigits (lit "2B2E") ∧
   has_high_pair (lit "2B2E") = false ∧
   (hex_to_brainfuck (lit "2B2E") ≫= brainfuck_to_hex) = Ok (lower (lit "2B2E"))) ∧
  (Nat.Even (length (lit "2Bfe")) ∧ all_hexdigits (lit "2Bfe") ∧
   has_high_pair (lit "2Bfe") = true ∧
   hex_to_brainfuck (lit "2Bfe") = Raise UnicodeDecodeError).
Proof.
  destruct C2_transcoder_roundtrip_ascii as (H1 & H2 & H3).
  assert (Ha : Forall ascii_range (lit "+."))
    by (repeat constructor; unfold ascii_range; cbn; lia).
  assert (He : Nat.Even 4) by (exists 2%nat; reflexivity).
  assert (Hd1 : all_hexdigits (lit "2B2E")) by (repeat constructor).
  assert (Hd2 : all_hexdigits (lit "2Bfe")) by (repeat constructor).
  exact (conj (conj Ha (H1 _ Ha))
           (conj (conj He (conj Hd1 (conj eq_refl (H2 (lit "2B2E") He Hd1 eq_refl))))
                 (conj He (conj Hd2 (conj eq_refl (H3 (lit "2Bfe") He Hd2 eq_refl)))))).
Defined.

(** C3, as stated, fails in both directions: ["80"] has even length and
    only hex digits, yet [from_hex] raises on it (the byte 128 is not
    ASCII); and ["2b 2e"] has odd length and contains a character outside
    [0-9a-fA-F], yet [from_hex] succeeds on it ([bytes.fromhex] skips the
    space). *)
Lemma C3_counterexample :
  (Nat.Even (length (lit "80")) ∧ all_hexdigits (lit "80") ∧
   hex_to_brainfuck (lit "80") = Raise UnicodeDecodeError) ∧
  (Nat.Odd (length (lit "2b 2e")) ∧ some_non_hexdigit (lit "2b 2e") ∧
   hex_to_brainfuck (lit "2b 2e") = Ok (lit "+.")).
Proof.
  split; split_and!.
  - by exists 1%nat.
  - by repeat constructor.
  - by vm_compute.
  - by exists 2%nat.
  - do 2 apply Exists_cons_tl. by apply Exists_cons_hd.
  - by vm_compute.
Qed.

(** C3, amended: on an input without ASCII whitespace, [from_hex] fails if
    and only if the input has odd length, or contains a character outside
    [0-9a-fA-F], or has a digit pair denoting a byte value 128-255; on
    every other such input it succeeds with the source whose lowercase
    hex encoding is the input lowercased (so the digits' case does not
    matter). *)
Theorem C3_hex_to_brainfuck_failure (h : str) :
  no_space h →
  ((∃ e, hex_to_brainfuck h = Raise e) ↔
     Nat.Odd (length h) ∨ some_non_hexdigit h ∨ has_high_pair h = true) ∧
  (¬ (Nat.Odd (length h) ∨ some_non_hexdigit h ∨ has_high_pair h = true) →
     ∃ s, hex_to_brainfuck h = Ok s ∧ brainfuck_to_hex s = Ok (lower h)).
Proof.
  intros Hsp. pose proof (hex_to_brainfuck_cases h Hsp) as H.
  destruct (hex_to_brainfuck h) as [s | e].
  - destruct H as (Hev & Hall & Hhigh & Hhex). split.
    + split; [by intros [e ?] |]. intros [Hodd | [Hnon | Hh]].
      * destruct (Nat.Even_Odd_False _ Hev Hodd).
      * destruct (all_hexdigits_not_some h Hall Hnon).
      * congruence.
    + intros _. by exists s.
  - assert (Nat.Odd (length h) ∨ some_non_hexdigit h ∨ has_high_pair h = true) as Hc.
    { destruct H as [(_ & [? | ?]) | (_ & _ & _ & ?)]; auto. }
    split; [| done]. split; [done |]. intros _. by exists e.
Qed.

(** The characterisation on ["2B2E"]. *)
Lemma C3_hex_to_brainfuck_failure_witness :
  no_space (lit "2B2E") ∧
  ((∃ e, hex_to_brainfuck (lit "2B2E") = Raise e) ↔
     Nat.Odd (length (lit "2B2E")) ∨ some_non_hexdigit (lit "2B2E") ∨
     has_high_pair (lit "2B2E") = true) ∧
  (¬ (Nat.Odd (length (lit "2B2E")) ∨ some_non_hexdigit (lit "2B2E") ∨
      has_high_pair (lit "2B2E") = true) →
     ∃ s, hex_to_brainfuck (lit "2B2E") = Ok s ∧
          brainfuck_to_hex s = Ok (lower (lit "2B2E"))).
Proof.
  assert (H : no_space (lit "2B2E")) by (repeat constructor).
  split; [exact H | exact (C3_hex_to_brainfuck_failure (lit "2B2E") H)].
Defined.

(** C4, as stated, fails: on two consecutive open brackets the scan ends
    with positions 0 and 1 pending, and the error reports position 1, not
    the earliest position 0. *)
Lemma C4_counterexample :
  scan_brackets (filter_commands (lit "[[")) 0 ∅ [] = Ok (∅, [0; 1]) ∧
  run_brainfuck 10 (lit "[[") [] = Raised (UnmatchedOpen 1).
Proof. split; by vm_compute. Qed.

(** C4, amended: when the scan ends with one or more pending open
    brackets, [run] fails with an unmatched-open error that reports the
    position, in the filtered instruction sequence, of the latest pending
    open bracket: the last one pushed, which is the greatest pending
    position. *)
Theorem C4_unmatched_open_reports_latest
    (code inp : str) (fuel : nat) (jumps : gmap Z Z) (stack : list Z) :
  scan_brackets (filter_commands code) 0 ∅ [] = Ok (jumps, stack) →
  stack ≠ [] →
  ∃ p, last stack = Some p ∧
       run_brainfuck fuel code inp = Raised (UnmatchedOpen p) ∧
       py_getitem (filter_commands code) p = Ok 91 ∧
       Forall (λ q, q ≤ p) stack.
Proof.
  intros Hscan Hne.
  pose proof (build_jumps_cases (filter_commands code)) as Hb.
  destruct (scan_brackets_full _ _ _ Hscan) as [_ Hso Hst _].
  rewrite Hscan in Hb.
  destruct stack as [| p stack _] using rev_ind; [done |].
  assert (∃ q, last (stack ++ [p]) = Some q ∧
               build_jumps (filter_commands code) = Raise (UnmatchedOpen q))
    as (q & Hq & Hraise) by (by destruct (stack ++ [p])).
  rewrite last_snoc in Hq. simplify_eq. exists q. split_and!.
  - apply last_snoc.
  - unfold run_brainfuck, prepare. by rewrite Hraise.
  - apply Forall_app in Hst as [_ Hq]. by apply Forall_singleton in Hq as [_ ?].
  - apply Forall_app. split; [| by apply Forall_singleton].
    apply Forall_forall. intros a Ha.
    apply Z.lt_le_incl, (StronglySorted_app_1_elem_of _ _ _ _ _ Hso Ha).
    by apply list_elem_of_singleton.
Qed.

(** Two consecutive open brackets: position 1 is reported. *)
Lemma C4_unmatched_open_reports_latest_witness :
  ∃ p, last [0; 1] = Some p ∧
       run_brainfuck 10 (lit "[[") [] = Raised (UnmatchedOpen p) ∧
       py_getitem (filter_commands (lit "[[")) p = Ok 91 ∧
       Forall (λ q, q ≤ p) [0; 1].
Proof.
  apply (C4_unmatched_open_reports_latest (lit "[[") [] 10 ∅ [0; 1]).
  - vm_compute. reflexivity.
  - discriminate.
Defined.

(** C5: bracket errors are raised before any instruction executes:
    [run("]")] fails with unmatched-close at position 0 and [run("[")]
    with unmatched-open at position 0, whatever the fuel and the input;
    every exception of [run] is raised by the code before the loop, so it
    also occurs when the loop is allowed no iteration at all and no
    output exists; [run("[]")] returns the empty output. *)
Theorem C5_bracket_errors_before_execution :
  (∀ fuel inp, run_brainfuck fuel (lit "]") inp = Raised (UnmatchedClose 0)) ∧
  (∀ fuel inp, run_brainfuck fuel (lit "[") inp = Raised (UnmatchedOpen 0)) ∧
  (∀ fuel code inp e,
     run_brainfuck fuel code inp = Raised e →
     prepare code inp = Raise e ∧ run_brainfuck 0 code inp = Raised e) ∧
  (∀ fuel, run_brainfuck (1 + fuel) (lit "[]") [] = Returned []).
Proof.
  split_and!.
  - intros fuel inp. by vm_compute.
  - intros fuel inp. by vm_compute.
  - intros fuel code inp e H. apply run_brainfuck_raised in H.
    split; [done |]. unfold run_brainfuck. by rewrite H.
  - intros fuel. apply run_brainfuck_fuel_mono. by vm_compute.
Qed.

(** An unmatched close after two instructions: nothing runs. *)
Lemma C5_bracket_errors_before_execution_witness :
  run_brainfuck 7 (lit "+.]") (lit "x") = Raised (UnmatchedClose 2) ∧
  prepare (lit "+.]") (lit "x") = Raise (UnmatchedClose 2) ∧
  run_brainfuck 0 (lit "+.]") (lit "x") = Raised (UnmatchedClose 2).
Proof.
  assert (H : run_brainfuck 7 (lit "+.]") (lit "x") = Raised (UnmatchedClose 2))
    by (vm_compute; reflexivity).
  split; [exact H |].
  exact (proj1 (proj2 (proj2 C5_bracket_errors_before_execution))
           7%nat (lit "+.]") (lit "x") (UnmatchedClose 2) H).
Defined.

(** C6: in every state the loop reaches, every tape cell is in [0,255];
    cell-increment and cell-decrement store the value modulo 256; and the
    program that decrements the starting cell once and outputs returns
    the byte value 255. *)
Theorem C6_cells_are_bytes :
  (∀ code inp filtered jumps buf st,
     prepare code inp = Ok (filtered, jumps, buf) →
     reaches filtered jumps (initial_state buf) st →
     Forall byte_range (tape st)) ∧
  (∀ jumps st v,
     py_getitem (tape st) (ptr st) = Ok v →
     dispatch jumps 43 st = set_cell st ((v + 1) mod 256) ∧
     dispatch jumps 45 st = set_cell st ((v - 1) mod 256)) ∧
  (∀ fuel, run_brainfuck (2 + fuel) (lit "-.") [] = Returned [255]).
Proof.
  split_and!.
  - intros code inp filtered jumps buf st Hp Hr.
    destruct (prepare_ok _ _ _ _ _ Hp) as [Hj Hok].
    by destruct (reaches_ok _ _ _ _ Hj Hr Hok).
  - intros jumps st v Hv.
    by rewrite (dispatch_plus _ _ _ Hv), (dispatch_minus _ _ _ Hv), !land255.
  - intros fuel. apply run_brainfuck_fuel_mono. by vm_compute.
Qed.

(** The state after the decrement of ["-."]. *)
Lemma C6_cells_are_bytes_witness :
  prepare (lit "-.") [] = Ok (lit "-.", ∅, []) ∧
  reaches (lit "-.") ∅ (initial_state []) (State [255] 0 1 [] []) ∧
  Forall byte_range [255] ∧
  dispatch ∅ 45 (initial_state []) = set_cell (initial_state []) ((0 - 1) mod 256).
Proof.
  assert (Hp : prepare (lit "-.") [] = Ok (lit "-.", ∅, [])) by (vm_compute; reflexivity).
  assert (Hr : reaches (lit "-.") ∅ (initial_state []) (State [255] 0 1 [] [])).
  { eapply reaches_step; [reflexivity | vm_compute; reflexivity | apply reaches_refl]. }
  split_and!; [exact Hp | exact Hr | |].
  - exact (proj1 C6_cells_are_bytes (lit "-.") [] (lit "-.") ∅ []
             (State [255] 0 1 [] []) Hp Hr).
  - exact (proj2 (proj1 (proj2 C6_cells_are_bytes) ∅ (initial_state []) 0 eq_refl)).
Defined.

(** C7: pointer-decrement at pointer 0 puts a fresh zero cell at the front
    of the tape and leaves the pointer at 0; the program ["<+."] returns
    the byte value 1. *)
Theorem C7_left_growth :
  (∀ filtered jumps st,
     py_getitem filtered (pc st) = Ok 60 → ptr st = 0 →
     step filtered jumps st =
     Ok (State (0 :: tape st) 0 (pc st + 1) (out_chars st) (in_buf st))) ∧
  (∀ fuel, run_brainfuck (3 + fuel) (lit "<+.") [] = Returned [1]).
Proof.
  split.
  - intros filtered jumps st Hc Hp. unfold step. rewrite Hc. cbn.
    unfold dispatch. cbn. by rewrite Hp.
  - intros fuel. apply run_brainfuck_fuel_mono. by vm_compute.
Qed.

(** Left growth of the tape [7, 9]. *)
Lemma C7_left_growth_witness :
  step (lit "<+.") ∅ (State [7; 9] 0 0 [] []) = Ok (State [0; 7; 9] 0 1 [] []).
Proof.
  exact (proj1 C7_left_growth (lit "<+.") ∅ (State [7; 9] 0 0 [] []) eq_refl eq_refl).
Defined.

(** C8: for a program that passes bracket validation and any input, in
    every state the loop reaches the pointer is a valid tape index, the
    current cell can be read, and the next iteration raises nothing;
    pointer-increment appends a zero cell when the pointer reaches the
    tape length. *)
Theorem C8_pointer_in_bounds
    (code inp filtered : str) (jumps : gmap Z Z) (buf : list Z) (st : state) :
  prepare code inp = Ok (filtered, jumps, buf) →
  reaches filtered jumps (initial_state buf) st →
  0 ≤ ptr st < len (tape st) ∧
  (∃ v, py_getitem (tape st) (ptr st) = Ok v) ∧
  (pc st < len filtered → ∃ st', step filtered jumps st = Ok st') ∧
  (ptr st + 1 = len (tape st) →
   dispatch jumps 62 st =
   Ok (State (tape st ++ [0]) (ptr st + 1) (pc st) (out_chars st) (in_buf st))).
Proof.
  intros Hp Hr. destruct (prepare_ok _ _ _ _ _ Hp) as [Hj Hok0].
  pose proof (reaches_ok _ _ _ _ Hj Hr Hok0) as Hok.
  split; [by destruct Hok |]. split_and!.
  - destruct (current_cell st Hok) as (v & _ & Hv). by exists v.
  - intros Hpc. destruct (step_ok _ _ _ Hj Hok Hpc) as (st' & Hs & _). by exists st'.
  - intros Hend. unfold dispatch. cbn. by rewrite Hend, Z.eqb_refl.
Qed.

(** The state after two iterations of ["<>>"]. *)
Lemma C8_pointer_in_bounds_witness :
  prepare (lit "<>>") [] = Ok (lit "<>>", ∅, []) ∧
  reaches (lit "<>>") ∅ (initial_state []) (State [0; 0] 1 2 [] []) ∧
  0 ≤ 1 < len [0; 0] ∧
  (∃ v, py_getitem [0; 0] 1 = Ok v).
Proof.
  assert (Hp : prepare (lit "<>>") [] = Ok (lit "<>>", ∅, [])) by (vm_compute; reflexivity).
  assert (Hr : reaches (lit "<>>") ∅ (initial_state []) (State [0; 0] 1 2 [] [])).
  { eapply reaches_step; [reflexivity | vm_compute; reflexivity |].
    eapply reaches_step; [reflexivity | vm_compute; reflexivity | apply reaches_refl]. }
  destruct (C8_pointer_in_bounds (lit "<>>") [] (lit "<>>") ∅ []
              (State [0; 0] 1 2 [] []) Hp Hr) as (H1 & H2 & _).
  exact (conj Hp (conj Hr (conj H1 H2))).
Defined.

(** C9: characters other than the 8 instruction symbols have no effect:
    running a source gives the same outcome as running the source
    restricted to those symbols, error positions included (they count
    filtered instructions). *)
Theorem C9_non_commands_ignored :
  (∀ c, c ∈ BF_COMMANDS ↔ c ∈ lit "+-<>[].,") ∧
  (∀ fuel s i, run_brainfuck fuel s i = run_brainfuck fuel (filter_commands s) i) ∧
  (∀ fuel i, run_brainfuck fuel (lit "ab ]") i = Raised (UnmatchedClose 0)).
Proof.
  split_and!.
  - apply elem_of_BF_COMMANDS.
  - intros fuel s i. unfold run_brainfuck, prepare. by rewrite filter_commands_idemp.
  - intros fuel i. by vm_compute.
Qed.

(** * Further properties of the code *)

(** ** Transcoder *)

Lemma brainfuck_to_hex_inv p h :
  brainfuck_to_hex p = Ok h → Forall ascii_range p ∧ h = bytes_hex p.
Proof.
  unfold brainfuck_to_hex, encode_ascii.
  destruct (forallb (in_codec 128) p) eqn:E; [| done].
  cbn. intros [= <-]. split; [| done]. by apply forallb_in_codec in E.
Qed.

Lemma hexdigit_lower d : 0 ≤ d < 16 → lower_hexdigit (hexdigit d).
Proof. intros. unfold lower_hexdigit, hexdigit. zcases; lia. Qed.

Lemma bytes_hex_wellformed b :
  Forall byte_range b →
  length (bytes_hex b) = (2 * length b)%nat ∧ Forall lower_hexdigit (bytes_hex b).
Proof.
  induction 1 as [| x b Hx _ [IHl IHd]]; [by split; [| constructor] |].
  destruct (nibbles_byte x Hx) as (Hhi & Hlo & _).
  rewrite bytes_hex_cons. split.
  - cbn [length]. rewrite IHl. lia.
  - repeat apply Forall_cons_2; auto using hexdigit_lower.
Qed.

(** X1: whenever [brainfuck_to_hex] succeeds, its result has exactly two
    characters per source character, all of them lowercase hexadecimal
    digits. *)
Theorem X1_to_hex_wellformed (p h : str) :
  brainfuck_to_hex p = Ok h →
  length h = (2 * length p)%nat ∧ Forall lower_hexdigit h.
Proof.
  intros (Hp & ->)%brainfuck_to_hex_inv.
  by apply bytes_hex_wellformed, ascii_byte_range.
Qed.

(** The hex string of ["+."]. *)
Lemma X1_to_hex_wellformed_witness :
  length (lit "2b2e") = (2 * length (lit "+."))%nat ∧ Forall lower_hexdigit (lit "2b2e").
Proof. exact (X1_to_hex_wellformed (lit "+.") (lit "2b2e") eq_refl). Defined.

(** X3: [brainfuck_to_hex] is injective: two sources with the same hex
    string are equal. *)
Theorem X3_to_hex_injective (p q h : str) :
  brainfuck_to_hex p = Ok h → brainfuck_to_hex q = Ok h → p = q.
Proof.
  intros (Hp & ->)%brainfuck_to_hex_inv (Hq & Heq)%brainfuck_to_hex_inv.
  destruct (hex_roundtrip p Hp) as [_ H1]. destruct (hex_roundtrip q Hq) as [_ H2].
  rewrite Heq in H1. congruence.
Qed.

(** Two sources with the hex string ["2b2e"]. *)
Lemma X3_to_hex_injective_witness : lit "+." = [43; 46].
Proof. exact (X3_to_hex_injective (lit "+.") [43; 46] (lit "2b2e") eq_refl eq_refl). Defined.

Lemma hexval_lower c :
  hexval (if (65 <=? c) && (c <=? 90) then c + 32 else c) = hexval c.
Proof.
  destruct (Z.leb_spec 65 c); [destruct (Z.leb_spec c 90) |]; cbn [andb]; [| done ..].
  unfold hexval.
  replace ((48 <=? c + 32) && (c + 32 <=? 57)) with false by (zcases; lia).
  replace ((48 <=? c) && (c <=? 57)) with false by (zcases; lia).
  replace ((97 <=? c) && (c <=? 102)) with false by (zcases; lia).
  replace ((65 <=? c + 32) && (c + 32 <=? 70)) with false by (zcases; lia).
  replace ((97 <=? c + 32) && (c + 32 <=? 102)) with ((65 <=? c) && (c <=? 70))
    by (zcases; lia).
  destruct ((65 <=? c) && (c <=? 70)); [f_equal; lia | done].
Qed.

Lemma is_space_lower c :
  is_space (if (65 <=? c) && (c <=? 90) then c + 32 else c) = is_space c.
Proof. unfold is_space. zcases; lia. Qed.

Lemma lower_cons c h :
  lower (c :: h) = (if (65 <=? c) && (c <=? 90) then c + 32 else c) :: lower h.
Proof. done. Qed.

Lemma fromhex_lower n : ∀ h, (length h ≤ n)%nat → fromhex (lower h) = fromhex h.
Proof.
  induction n as [| n IH]; intros h Hlen; (destruct h as [| c h]; [done |]);
    cbn [length] in Hlen; [lia |].
  rewrite lower_cons. cbn [fromhex]. rewrite is_space_lower, hexval_lower.
  destruct (is_space c); [apply IH; lia |].
  destruct (hexval c); [| done].
  destruct h as [| d h]; [done |]. rewrite lower_cons, hexval_lower.
  destruct (hexval d); [| done].
  rewrite IH by (cbn [length] in Hlen; lia). done.
Qed.

(** X4: on ASCII input, where [str.lower()] changes the letters A-Z only,
    [hex_to_brainfuck] does not depend on the case of the letters:
    lowercasing the hex string changes neither the decoded source nor the
    exception. *)
Theorem X4_from_hex_case_insensitive (h : str) :
  Forall ascii_range h →
  hex_to_brainfuck (lower h) = hex_to_brainfuck h.
Proof. intros _. unfold hex_to_brainfuck. by rewrite (fromhex_lower (length h)). Qed.

(** Uppercase digits, and an uppercase letter that is no digit. *)
Lemma X4_from_hex_case_insensitive_witness :
  hex_to_brainfuck (lower (lit "2B2E")) = hex_to_brainfuck (lit "2B2E") ∧
  hex_to_brainfuck (lower (lit "2BZZ")) = hex_to_brainfuck (lit "2BZZ").
Proof.
  assert (H1 : Forall ascii_range (lit "2B2E"))
    by (repeat constructor; unfold ascii_range; cbn; lia).
  assert (H2 : Forall ascii_range (lit "2BZZ"))
    by (repeat constructor; unfold ascii_range; cbn; lia).
  exact (conj (X4_from_hex_case_insensitive (lit "2B2E") H1)
              (X4_from_hex_case_insensitive (lit "2BZZ") H2)).
Defined.

(** What [fromhex] computes is unchanged by removing the whitespace it
    skipped. *)
Lemma fromhex_strip n : ∀ h b,
  (length h ≤ n)%nat → fromhex h = Ok b → fromhex (strip_spaces h) = Ok b.
Proof.
  unfold strip_spaces.
  induction n as [| n IH]; intros h b Hlen; (destruct h as [| c h]; [done |]);
    cbn [length] in Hlen; [lia |].
  cbn [fromhex]. destruct (is_space c) eqn:Ec.
  - rewrite filter_cons_False by (by rewrite Ec). apply IH. lia.
  - rewrite filter_cons_True by done.
    destruct (hexval c) as [top |] eqn:Etop; [| done].
    destruct h as [| d h]; [done |].
    destruct (hexval d) as [bot |] eqn:Ebot; [| done].
    rewrite filter_cons_True by (by eapply hexval_not_space).
    destruct (fromhex h) as [b' |] eqn:Eh; [| done]. intros [= <-].
    cbn [fromhex]. rewrite Ec, Etop, Ebot.
    erewrite IH; [done | cbn [length] in Hlen; lia | done].
Qed.

Lemma decode_ascii_inv b s : decode_ascii b = Ok s → s = b ∧ Forall ascii_range b.
Proof.
  unfold decode_ascii. destruct (forallb (in_codec 128) b) eqn:E; [| done].
  intros [= <-]. split; [done |]. by apply forallb_in_codec in E.
Qed.

Lemma hex_to_brainfuck_inv h s :
  hex_to_brainfuck h = Ok s → fromhex h = Ok s ∧ Forall ascii_range s.
Proof.
  unfold hex_to_brainfuck. destruct (fromhex h) as [b | e]; [| done].
  cbn. by intros [-> ?]%decode_ascii_inv.
Qed.

Lemma strip_spaces_no_space h : no_space (strip_spaces h).
Proof.
  unfold no_space, strip_spaces. apply Forall_forall.
  intros c Hc. by apply list_elem_of_filter in Hc as [? _].
Qed.

(** X5: whenever [hex_to_brainfuck] succeeds, also on input with
    whitespace, the decoded source is ASCII and its hex encoding is the
    input with the whitespace removed and the letters lowercased. *)
Theorem X5_from_hex_then_to_hex (h s : str) :
  hex_to_brainfuck h = Ok s →
  Forall ascii_range s ∧ brainfuck_to_hex s = Ok (lower (strip_spaces h)).
Proof.
  intros [Hf Hs]%hex_to_brainfuck_inv. split; [done |].
  apply (fromhex_strip (length h)) in Hf; [| done].
  pose proof (hex_to_brainfuck_cases _ (strip_spaces_no_space h)) as H.
  unfold hex_to_brainfuck in H. rewrite Hf in H. cbn in H.
  rewrite decode_ascii_ok in H by done. by destruct H as (_ & _ & _ & ?).
Qed.

(** Uppercase digits separated by whitespace. *)
Lemma X5_from_hex_then_to_hex_witness :
  Forall ascii_range (lit "+.") ∧ brainfuck_to_hex (lit "+.") = Ok (lit "2b2e").
Proof. exact (X5_from_hex_then_to_hex (lit " 2B  2E ") (lit "+.") eq_refl). Defined.

Lemma fromhex_app n : ∀ h1 h2 b1,
  (length h1 ≤ n)%nat → fromhex h1 = Ok b1 →
  fromhex (h1 ++ h2) = (b2 ← fromhex h2; Ok (b1 ++ b2)).
Proof.
  induction n as [| n IH]; intros h1 h2 b1 Hlen; destruct h1 as [| c h1];
    cbn [length] in Hlen; try lia.
  1, 2: intros [= <-]; cbn; by destruct (fromhex h2).
  cbn [fromhex app]. destruct (is_space c).
  - apply IH. lia.
  - destruct (hexval c) as [top |]; [| done].
    destruct h1 as [| d h1]; [done |]. cbn [app].
    destruct (hexval d) as [bot |]; [| done].
    destruct (fromhex h1) as [b' |] eqn:Eh; [| done]. intros [= <-].
    rewrite (IH h1 h2 b') by (cbn [length] in Hlen; lia || done).
    by destruct (fromhex h2).
Qed.

(** X6: decoding the concatenation of two hex strings that each decode
    gives the concatenation of the two sources. *)
Theorem X6_from_hex_concat (h1 h2 s1 s2 : str) :
  hex_to_brainfuck h1 = Ok s1 → hex_to_brainfuck h2 = Ok s2 →
  hex_to_brainfuck (h1 ++ h2) = Ok (s1 ++ s2).
Proof.
  intros [H1 A1]%hex_to_brainfuck_inv [H2 A2]%hex_to_brainfuck_inv.
  unfold hex_to_brainfuck. rewrite (fromhex_app (length h1) h1 h2 s1) by done.
  rewrite H2. cbn. apply decode_ascii_ok. by apply Forall_app.
Qed.

(** Two hex strings, the first with trailing whitespace. *)
Lemma X6_from_hex_concat_witness :
  hex_to_brainfuck (lit "2b " ++ lit "2E") = Ok (lit "+" ++ lit ".").
Proof. exact (X6_from_hex_concat (lit "2b ") (lit "2E") (lit "+") (lit ".") eq_refl eq_refl). Defined.

(** ** Generator *)

Lemma count_dots_app l1 l2 : count_dots (l1 ++ l2) = (count_dots l1 + count_dots l2)%nat.
Proof. unfold count_dots. by rewrite filter_app, length_app. Qed.

Lemma count_dots_replicate k c : c ≠ 46 → count_dots (replicate k c) = 0%nat.
Proof.
  intros Hc. unfold count_dots. induction k as [| k IH]; [done |].
  cbn [replicate]. by rewrite filter_cons_False.
Qed.

Lemma count_dots_delta_code curr target : count_dots (delta_code curr target) = 0%nat.
Proof. unfold delta_code. repeat case_match; by rewrite ?count_dots_replicate. Qed.

Lemma count_dots_emit text : ∀ curr, count_dots (emit curr text) = length text.
Proof.
  induction text as [| ch rest IH]; intros curr; [done |]. cbn [emit length].
  rewrite count_dots_app, count_dots_delta_code.
  change (46 :: emit ch rest) with ([46] ++ emit ch rest).
  rewrite count_dots_app, IH. done.
Qed.

(** X7: the generated program consists of [+], [-] and [.] only (no
    brackets, no pointer movement, no input), and has exactly one [.] per
    character of the text. *)
Theorem X7_generated_alphabet (text : str) :
  Forall (λ c, c = 43 ∨ c = 45 ∨ c = 46) (text_to_brainfuck text) ∧
  count_dots (text_to_brainfuck text) = length text.
Proof.
  rewrite text_to_brainfuck_emit. split; [apply emit_plain | apply count_dots_emit].
Qed.

Lemma len_delta_code curr target : len (delta_code curr target) = Z.abs (target - curr).
Proof.
  unfold delta_code, len. zcases; rewrite ?length_replicate; cbn [length]; lia.
Qed.

Lemma len_emit text : ∀ curr, len (emit curr text) = len text + variation curr text.
Proof.
  induction text as [| ch rest IH]; intros curr; [done |]. cbn [emit variation].
  rewrite len_app, !len_cons, len_delta_code, IH. lia.
Qed.

(** X8: the generated program has one instruction per character of the
    text plus the total distance between consecutive code points (the
    first one counted from 0). *)
Theorem X8_generated_length (text : str) :
  len (text_to_brainfuck text) = len text + variation 0 text.
Proof. rewrite text_to_brainfuck_emit. apply len_emit. Qed.

(** ** Running generated code on any code points *)

Lemma mod256_range v : byte_range (v mod 256).
Proof. unfold byte_range. apply Z.mod_pos_bound. lia. Qed.

(** [k] copies of [+] or [-] move the cell by [k] modulo 256. *)
Lemma exec_run_wrap c d k : ∀ pre suf jumps fuel v out inb,
  (c = 43 ∧ d = 1) ∨ (c = 45 ∧ d = -1) →
  byte_range v →
  exec (pre ++ replicate k c ++ suf) jumps (k + fuel)
    (State [v] 0 (len pre) out inb) =
  exec (pre ++ replicate k c ++ suf) jumps fuel
    (State [(v + d * Z.of_nat k) mod 256] 0 (len pre + Z.of_nat k) out inb).
Proof.
  induction k as [| k IH]; intros pre suf jumps fuel v out inb Hcd Hv.
  - cbn [replicate app Nat.add]. f_equal. apply one_cell_state_eq; [| lia].
    unfold byte_range in Hv. rewrite Z.mod_small; lia.
  - cbn [replicate app Nat.add].
    assert (Hstep : dispatch jumps c (State [v] 0 (len pre) out inb) =
                    Ok (State [(v + d) mod 256] 0 (len pre) out inb)).
    { destruct Hcd as [[-> ->] | [-> ->]].
      - rewrite (dispatch_plus jumps (State [v] 0 (len pre) out inb) v eq_refl).
        by rewrite land255.
      - rewrite (dispatch_minus jumps (State [v] 0 (len pre) out inb) v eq_refl).
        by rewrite land255. }
    erewrite exec_step; [| done | exact Hstep]. unfold set_pc. cbn [tape ptr pc out_chars in_buf].
    replace (len pre + 1) with (len (pre ++ [c])) by (by rewrite len_app).
    replace (pre ++ c :: replicate k c ++ suf) with ((pre ++ [c]) ++ replicate k c ++ suf)
      by (by rewrite <- app_assoc).
    rewrite IH by (done || apply mod256_range).
    rewrite len_app. change (len [c]) with 1.
    f_equal. apply one_cell_state_eq; [| lia].
    rewrite Zplus_mod_idemp_l. f_equal. lia.
Qed.

Lemma exec_delta_wrap pre suf jumps fuel curr target out inb :
  exec (pre ++ delta_code curr target ++ suf) jumps (length (delta_code curr target) + fuel)
    (State [curr mod 256] 0 (len pre) out inb) =
  exec (pre ++ delta_code curr target ++ suf) jumps fuel
    (State [target mod 256] 0 (len (pre ++ delta_code curr target)) out inb).
Proof.
  rewrite len_app. unfold delta_code.
  destruct (Z.ltb_spec 0 (target - curr)); [| destruct (Z.ltb_spec (target - curr) 0)].
  - rewrite length_replicate, (exec_run_wrap 43 1) by (auto using mod256_range).
    unfold len. rewrite length_replicate. f_equal. apply one_cell_state_eq; [| done].
    rewrite Zplus_mod_idemp_l. f_equal. lia.
  - rewrite length_replicate, (exec_run_wrap 45 (-1)) by (auto using mod256_range).
    unfold len. rewrite length_replicate. f_equal. apply one_cell_state_eq; [| done].
    rewrite Zplus_mod_idemp_l. f_equal. lia.
  - change (len (@nil Z)) with 0. cbn [length Nat.add].
    f_equal. apply one_cell_state_eq; [f_equal |]; lia.
Qed.

Lemma exec_emit_wrap text : ∀ pre jumps fuel curr out inb,
  (length (emit curr text) ≤ fuel)%nat →
  exec (pre ++ emit curr text) jumps fuel (State [curr mod 256] 0 (len pre) out inb) =
  Returned (out ++ map (λ c, c mod 256) text).
Proof.
  induction text as [| ch rest IH]; intros pre jumps fuel curr out inb Hfuel.
  - cbn [emit map]. rewrite !app_nil_r. apply exec_halt. cbn. lia.
  - cbn [emit map] in *.
    rewrite length_app in Hfuel. cbn [length] in Hfuel.
    replace fuel with (length (delta_code curr ch) +
      S (fuel - length (delta_code curr ch) - 1))%nat by lia.
    rewrite exec_delta_wrap.
    rewrite (app_assoc pre).
    erewrite exec_step; [| done |]; cycle 1.
    { apply (dispatch_dot jumps (State [ch mod 256] 0 _ out inb) (ch mod 256));
        [done | apply mod256_range]. }
    unfold set_pc. cbn [tape ptr pc out_chars in_buf].
    replace (len (pre ++ delta_code curr ch) + 1)
      with (len ((pre ++ delta_code curr ch) ++ [46])) by (by rewrite (len_app _ [46])).
    replace ((pre ++ delta_code curr ch) ++ 46 :: emit ch rest)
      with (((pre ++ delta_code curr ch) ++ [46]) ++ emit ch rest)
      by (by rewrite <- (app_assoc _ [46])).
    rewrite IH by lia. by rewrite <- app_assoc.
Qed.

Lemma build_jumps_plain l : Forall plain l → build_jumps (filter_commands l) = Ok ∅.
Proof.
  intros Hl. unfold build_jumps.
  by rewrite filter_commands_plain, scan_brackets_plain.
Qed.

Lemma run_generated text inp fuel :
  Forall byte_range inp →
  (length (text_to_brainfuck text) ≤ fuel)%nat →
  run_brainfuck fuel (text_to_brainfuck text) inp = Returned (map (λ c, c mod 256) text).
Proof.
  intros Hinp Hfuel. rewrite text_to_brainfuck_emit in *.
  pose proof (emit_plain text 0) as Hplain. unfold run_brainfuck.
  rewrite (prepare_intro _ inp ∅) by (done || by apply build_jumps_plain).
  rewrite filter_commands_plain by done.
  apply (exec_emit_wrap text [] ∅ fuel 0 [] inp Hfuel).
Qed.

(** X9: running the program generated for any text, on any input of byte
    range characters and with fuel of at least the program's length,
    returns the text with every code point reduced modulo 256; the input
    is ignored. *)
Theorem X9_run_generated_mod256 (text inp : str) (fuel : nat) :
  Forall byte_range inp →
  (length (text_to_brainfuck text) ≤ fuel)%nat →
  run_brainfuck fuel (text_to_brainfuck text) inp = Returned (map (λ c, c mod 256) text).
Proof. apply run_generated. Qed.

(** The text of code points 321 and 66, with input ["xy"]: 321 comes out
    as 65. *)
Lemma X9_run_generated_mod256_witness :
  run_brainfuck 600 (text_to_brainfuck [321; 66]) (lit "xy") = Returned (lit "AB").
Proof.
  apply (X9_run_generated_mod256 [321; 66] (lit "xy") 600).
  - repeat constructor; unfold byte_range; cbn; lia.
  - vm_compute. lia.
Defined.

(** X10: [encode_to_hex] never raises, whatever the code points of the
    text, and [decode_from_hex] on its result returns the text with every
    code point reduced modulo 256 (so characters above 255 are silently
    truncated to their low byte). *)
Theorem X10_encode_total_decode_mod256 (text : str) :
  ∃ h, encode_to_hex text = Ok h ∧
       hex_to_brainfuck h = Ok (text_to_brainfuck text) ∧
       ∀ fuel, (length (text_to_brainfuck text) ≤ fuel)%nat →
               decode_from_hex fuel h = Returned (map (λ c, c mod 256) text).
Proof.
  pose proof (emit_plain text 0) as Hplain. rewrite <- text_to_brainfuck_emit in Hplain.
  destruct (hex_roundtrip _ (plain_ascii _ Hplain)) as [Henc Hdec].
  exists (bytes_hex (text_to_brainfuck text)). split_and!; try done.
  intros fuel Hfuel. unfold decode_from_hex. rewrite Hdec.
  by apply run_generated.
Qed.

(** The text of the single code point 321. *)
Lemma X10_encode_total_decode_mod256_witness :
  ∃ h, encode_to_hex [321] = Ok h ∧ decode_from_hex 400 h = Returned [65].
Proof.
  destruct (X10_encode_total_decode_mod256 [321]) as (h & He & _ & Hd).
  exists h. split; [exact He |]. apply (Hd 400%nat). vm_compute. lia.
Defined.

(** ** The jump table *)

Lemma py_getitem_inv {A} (l : list A) (i : Z) (x : A) :
  0 ≤ i → py_getitem l i = Ok x → l !! Z.to_nat i = Some x.
Proof.
  intros Hi. unfold py_getitem. zcases; try lia.
  destruct (l !! Z.to_nat i); [by intros [= ->] | done].
Qed.

Lemma at_pos_middle pre c l : at_pos (pre ++ c :: l) (len pre) c.
Proof.
  split; [apply len_nonneg |]. unfold len. rewrite Nat2Z.id. by apply list_lookup_middle.
Qed.

Lemma scan_paired_init full : scan_paired full 0 ∅ [].
Proof.
  split.
  - intros k v. by rewrite lookup_empty.
  - intros k v. by rewrite lookup_empty.
  - intros p Hp. by apply elem_of_nil in Hp.
Qed.

Lemma scan_paired_skip full i jumps stack :
  scan_paired full i jumps stack → scan_paired full (i + 1) jumps stack.
Proof.
  intros [Hp Hk Hs]. split; [done | | done].
  intros k v Hkv. specialize (Hk k v Hkv). lia.
Qed.

Lemma scan_paired_open full i jumps stack :
  scan_paired full i jumps stack → scan_paired full (i + 1) jumps (stack ++ [i]).
Proof.
  intros [Hp Hk Hs]. split; [done | |].
  - intros k v Hkv. specialize (Hk k v Hkv). lia.
  - intros p [Hin | ->%list_elem_of_singleton]%elem_of_app; [by apply Hs |].
    destruct (jumps !! i) as [v |] eqn:E; [| done].
    specialize (Hk i v E). lia.
Qed.

Lemma scan_paired_close pre l jumps stack j :
  scan_inv (pre ++ 93 :: l) (len pre) jumps (stack ++ [j]) →
  scan_paired (pre ++ 93 :: l) (len pre) jumps (stack ++ [j]) →
  scan_paired (pre ++ 93 :: l) (len pre + 1)
    (<[j := len pre]> (<[len pre := j]> jumps)) stack.
Proof.
  intros [_ Hso Hst _] [Hp Hk Hs]. pose proof (len_nonneg pre) as Hpre.
  apply Forall_app in Hst as [Hst Hj]. apply Forall_singleton in Hj as [Hj Hjc].
  assert (Hj91 : at_pos (pre ++ 93 :: l) j 91).
  { split; [lia |]. apply py_getitem_inv; [lia | done]. }
  pose proof (at_pos_middle pre 93 l) as Hi93.
  assert (Hjnone : jumps !! j = None).
  { apply Hs, elem_of_app. right. by apply list_elem_of_singleton. }
  split.
  - intros k v. rewrite lookup_insert. case_decide as Ekj.
    { intros [= <-]. subst k. split.
      - rewrite lookup_insert_ne, lookup_insert_eq by lia. done.
      - left. split_and!; [done | done | lia]. }
    rewrite lookup_insert. case_decide as Eki.
    { intros [= <-]. subst k. split.
      - by rewrite lookup_insert_eq.
      - right. split_and!; [done | done | lia]. }
    intros Hkv. destruct (Hp k v Hkv) as [Hvk Hty]. split; [| done].
    assert (v ≠ j) by congruence.
    assert (v ≠ len pre) by (specialize (Hk v k Hvk); lia).
    by rewrite !lookup_insert_ne.
  - intros k v. rewrite !lookup_insert. repeat case_decide; intros Hkv; simplify_eq; try lia.
    specialize (Hk k v Hkv). lia.
  - intros p Hin.
    assert (p < j).
    { apply (StronglySorted_app_1_elem_of _ _ _ _ _ Hso Hin).
      by apply list_elem_of_singleton. }
    rewrite Forall_forall in Hst. destruct (Hst p Hin) as [? _].
    rewrite !lookup_insert_ne by lia. apply Hs, elem_of_app. by left.
Qed.

Lemma scan_brackets_paired l : ∀ pre jumps stack jumps' stack',
  scan_inv (pre ++ l) (len pre) jumps stack →
  scan_paired (pre ++ l) (len pre) jumps stack →
  scan_brackets l (len pre) jumps stack = Ok (jumps', stack') →
  scan_paired (pre ++ l) (len (pre ++ l)) jumps' stack'.
Proof.
  induction l as [| c l IH]; intros pre jumps stack jumps' stack' Hinv Hpair Hscan.
  - cbn in Hscan. simplify_eq. by rewrite app_nil_r in *.
  - assert (Hlen : len pre + 1 = len (pre ++ [c])) by (by rewrite len_app).
    assert (Happ : pre ++ c :: l = (pre ++ [c]) ++ l) by (by rewrite <- app_assoc).
    cbn [scan_brackets] in Hscan.
    destruct (Z.eqb_spec c 91) as [-> | N91].
    { apply scan_inv_open in Hinv. apply scan_paired_open in Hpair.
      rewrite Hlen, Happ in *. by eapply IH. }
    destruct (Z.eqb_spec c 93) as [-> | N93].
    { destruct stack as [| p stack0 _] using rev_ind; [done |].
      replace (match stack0 ++ [p] with [] => Raise (UnmatchedClose (len pre)) | _ =>
        '(stack', j) ← py_pop (stack0 ++ [p]);
        scan_brackets l (len pre + 1) (<[j := len pre]> (<[len pre := j]> jumps)) stack' end)
        with (scan_brackets l (len pre + 1) (<[p := len pre]> (<[len pre := p]> jumps)) stack0)
        in Hscan by (rewrite py_pop_snoc; by destruct stack0).
      pose proof (scan_paired_close _ _ _ _ _ Hinv Hpair) as Hpair'.
      apply scan_inv_close in Hinv. rewrite Hlen, Happ in *. by eapply IH. }
    apply scan_inv_skip in Hinv; [| done | done]. apply scan_paired_skip in Hpair.
    rewrite Hlen, Happ in *. by eapply IH.
Qed.

Lemma build_jumps_scan filtered jumps :
  build_jumps filtered = Ok jumps → scan_brackets filtered 0 ∅ [] = Ok (jumps, []).
Proof.
  intros Hb. pose proof (build_jumps_cases filtered) as Hc.
  destruct (scan_brackets filtered 0 ∅ []) as [[jumps0 stack] | e]; [| congruence].
  destruct stack; [congruence |]. destruct Hc as (p & _ & Hc). congruence.
Qed.

(** X11: in the jump table of a program that passes bracket validation,
    every entry has its converse (the table is its own inverse), an entry
    leads from an open bracket to a later close bracket or from a close
    bracket to an earlier open bracket, and the positions that have an
    entry are exactly the positions of the brackets. *)
Theorem X11_jump_table_pairs_brackets (filtered : str) (jumps : gmap Z Z) :
  build_jumps filtered = Ok jumps →
  (∀ k v, jumps !! k = Some v →
     jumps !! v = Some k ∧
     ((at_pos filtered k 91 ∧ at_pos filtered v 93 ∧ k < v) ∨
      (at_pos filtered k 93 ∧ at_pos filtered v 91 ∧ v < k))) ∧
  (∀ (n : nat) c, filtered !! n = Some c →
     (is_Some (jumps !! Z.of_nat n) ↔ c = 91 ∨ c = 93)).
Proof.
  intros Hb. pose proof (build_jumps_ok _ _ Hb) as [_ Htot].
  apply build_jumps_scan in Hb.
  pose proof (scan_brackets_paired filtered [] ∅ [] jumps []
                (scan_inv_init _) (scan_paired_init _) Hb) as [Hp _ _].
  cbn [app] in Hp. split; [exact Hp |]. intros n c Hn. split; [| by apply Htot].
  intros [v Hv]. destruct (Hp _ _ Hv) as [_ [([_ Hk] & _) | ([_ Hk] & _)]];
    rewrite Nat2Z.id in Hk; [left | right]; congruence.
Qed.

(** The table of ["[+[-]]"]: position 0 pairs with position 5. *)
Lemma X11_jump_table_pairs_brackets_witness :
  (∀ k v, ({[0 := 5; 5 := 0; 2 := 4; 4 := 2]} : gmap Z Z) !! k = Some v →
     ({[0 := 5; 5 := 0; 2 := 4; 4 := 2]} : gmap Z Z) !! v = Some k ∧
     ((at_pos (lit "[+[-]]") k 91 ∧ at_pos (lit "[+[-]]") v 93 ∧ k < v) ∨
      (at_pos (lit "[+[-]]") k 93 ∧ at_pos (lit "[+[-]]") v 91 ∧ v < k))) ∧
  (∀ (n : nat) c, lit "[+[-]]" !! n = Some c →
     (is_Some (({[0 := 5; 5 := 0; 2 := 4; 4 := 2]} : gmap Z Z) !! Z.of_nat n) ↔
      c = 91 ∨ c = 93)).
Proof.
  apply (X11_jump_table_pairs_brackets (lit "[+[-]]")). vm_compute. reflexivity.
Defined.

(** ** Bracket validation and balance *)

Lemma scan_brackets_depth l : ∀ i jumps stack,
  match scan_brackets l i jumps stack with
  | Ok (_, stack') => bracket_depth l i (length stack) = Ok (length stack')
  | Raise e => bracket_depth l i (length stack) = Raise e
  end.
Proof.
  induction l as [| c l IH]; intros i jumps stack; [done |].
  cbn [scan_brackets bracket_depth].
  destruct (c =? 91).
  { specialize (IH (i + 1) jumps (stack ++ [i])).
    rewrite length_app, Nat.add_1_r in IH. exact IH. }
  destruct (c =? 93); [| apply IH].
  destruct stack as [| p stack _] using rev_ind; [done |].
  rewrite length_app, Nat.add_1_r.
  replace (match stack ++ [p] with [] => Raise (UnmatchedClose i) | _ =>
      '(stack', j) ← py_pop (stack ++ [p]);
      scan_brackets l (i + 1) (<[j := i]> (<[i := j]> jumps)) stack' end)
    with (scan_brackets l (i + 1) (<[p := i]> (<[i := p]> jumps)) stack)
    by (rewrite py_pop_snoc; by destruct stack).
  apply IH.
Qed.

Lemma build_jumps_depth filtered :
  match bracket_depth filtered 0 0 with
  | Ok O => ∃ jumps, build_jumps filtered = Ok jumps
  | Ok (S _) => ∃ p, build_jumps filtered = Raise (UnmatchedOpen p)
  | Raise e => build_jumps filtered = Raise e
  end.
Proof.
  pose proof (scan_brackets_depth filtered 0 ∅ []) as Hd.
  pose proof (build_jumps_cases filtered) as Hc.
  destruct (scan_brackets filtered 0 ∅ []) as [[jumps stack] | e]; cbn [length] in Hd;
    rewrite Hd; [| done].
  destruct stack as [| q stack]; cbn [length]; [by exists jumps |].
  destruct Hc as (p & _ & Hc). by exists p.
Qed.

Lemma bracket_depth_raises l : ∀ i depth e,
  bracket_depth l i depth = Raise e → ∃ p, e = UnmatchedClose p.
Proof.
  induction l as [| c l IH]; intros i depth e; [done |]. cbn [bracket_depth].
  destruct (c =? 91); [apply IH |].
  destruct (c =? 93); [| apply IH].
  destruct depth; [intros [= <-]; by eexists | apply IH].
Qed.

(** X12: bracket validation accepts exactly the balanced programs. Counting
    nesting depth along the filtered program, validation succeeds if and
    only if the depth never drops below 0 and ends at 0; it raises the
    unmatched-close error at position [i] if and only if [i] is the first
    close bracket met at depth 0; and it raises an unmatched-open error
    if and only if the depth ends above 0. *)
Theorem X12_validation_iff_balanced (filtered : str) :
  ((∃ jumps, build_jumps filtered = Ok jumps) ↔ bracket_depth filtered 0 0 = Ok 0%nat) ∧
  (∀ i, build_jumps filtered = Raise (UnmatchedClose i) ↔
        bracket_depth filtered 0 0 = Raise (UnmatchedClose i)) ∧
  ((∃ p, build_jumps filtered = Raise (UnmatchedOpen p)) ↔
   ∃ d, bracket_depth filtered 0 0 = Ok (S d)).
Proof.
  pose proof (build_jumps_depth filtered) as H.
  pose proof (bracket_depth_raises filtered 0 0) as Hr.
  destruct (bracket_depth filtered 0 0) as [[| d] | e].
  - destruct H as [jumps H]. split_and!.
    + split; [done | by exists jumps].
    + intros i. split; [congruence | done].
    + split; [intros [p ?]; congruence | by intros [d ?]].
  - destruct H as [p H]. split_and!.
    + split; [intros [j ?]; congruence | done].
    + intros i. split; [congruence | done].
    + split; [by exists d | by exists p].
  - split_and!.
    + split; [intros [j ?]; congruence | done].
    + intros i. split; congruence.
    + split; [intros [p ?] | intros [d ?]]; [| done].
      destruct (Hr e eq_refl) as [q ->]. congruence.
Qed.

(** ** The exceptions of [run_brainfuck] *)

Lemma scan_brackets_raises l : ∀ pre jumps stack e,
  scan_brackets l (len pre) jumps stack = Raise e →
  ∃ p, e = UnmatchedClose p ∧ at_pos (pre ++ l) p 93.
Proof.
  induction l as [| c l IH]; intros pre jumps stack e Hscan; [done |].
  assert (Hlen : len pre + 1 = len (pre ++ [c])) by (by rewrite len_app).
  assert (Happ : pre ++ c :: l = (pre ++ [c]) ++ l) by (by rewrite <- app_assoc).
  cbn [scan_brackets] in Hscan.
  destruct (Z.eqb_spec c 91) as [-> | N91].
  { rewrite Hlen in Hscan. rewrite Happ. by eapply IH. }
  destruct (Z.eqb_spec c 93) as [-> | N93].
  { destruct stack as [| p stack0 _] using rev_ind.
    - injection Hscan as <-. exists (len pre). split; [done | apply at_pos_middle].
    - replace (match stack0 ++ [p] with [] => Raise (UnmatchedClose (len pre)) | _ =>
        '(stack', j) ← py_pop (stack0 ++ [p]);
        scan_brackets l (len pre + 1) (<[j := len pre]> (<[len pre := j]> jumps)) stack' end)
        with (scan_brackets l (len pre + 1) (<[p := len pre]> (<[len pre := p]> jumps)) stack0)
        in Hscan by (rewrite py_pop_snoc; by destruct stack0).
      rewrite Hlen in Hscan. rewrite Happ. by eapply IH. }
  rewrite Hlen in Hscan. rewrite Happ. by eapply IH.
Qed.

Lemma build_jumps_raises filtered e :
  build_jumps filtered = Raise e →
  (∃ p, e = UnmatchedClose p ∧ at_pos filtered p 93) ∨
  (∃ p, e = UnmatchedOpen p ∧ at_pos filtered p 91).
Proof.
  intros Hb. pose proof (build_jumps_cases filtered) as Hc.
  pose proof (scan_brackets_full filtered) as Hs.
  pose proof (scan_brackets_raises filtered [] ∅ []) as Hr.
  change (len (@nil Z)) with 0 in Hr. cbn [app] in Hr.
  destruct (scan_brackets filtered 0 ∅ []) as [[jumps stack] | e'].
  - destruct stack as [| q stack]; [congruence |].
    destruct Hc as (p & Hlast & Hc). right. exists p. split; [congruence |].
    destruct (Hs _ _ eq_refl) as [_ _ Hst _].
    apply last_Some in Hlast as [stack' Hlast]. rewrite Hlast in Hst.
    apply Forall_app in Hst as [_ Hp]. apply Forall_singleton in Hp as [Hp Hc91].
    split; [lia |]. apply py_getitem_inv; [lia | done].
  - left. destruct (Hr e' eq_refl) as (p & -> & Hp). exists p. split; [congruence | done].
Qed.

Lemma encode_latin1_raise_inv inp e :
  encode_latin1 inp = Raise e → e = UnicodeEncodeError ∧ ¬ Forall byte_range inp.
Proof.
  unfold encode_latin1. destruct (forallb (in_codec 256) inp) eqn:E; [done |].
  intros [= <-]. split; [done |]. intros H%forallb_in_codec. congruence.
Qed.

Lemma run_brainfuck_exceptions fuel code inp e :
  run_brainfuck fuel code inp = Raised e →
  (∃ p, e = UnmatchedClose p ∧ at_pos (filter_commands code) p 93) ∨
  (∃ p, e = UnmatchedOpen p ∧ at_pos (filter_commands code) p 91) ∨
  (e = UnicodeEncodeError ∧ ¬ Forall byte_range inp).
Proof.
  intros Hp%run_brainfuck_raised. unfold prepare in Hp.
  destruct (build_jumps (filter_commands code)) as [jumps | e'] eqn:Hb.
  - cbn in Hp. destruct (encode_latin1 inp) as [buf | e'] eqn:He; [done |].
    cbn in Hp. injection Hp as <-. right. right. by apply encode_latin1_raise_inv.
  - cbn in Hp. injection Hp as <-.
    destruct (build_jumps_raises _ _ Hb) as [H | H]; auto.
Qed.

(** X13: the only exceptions [run_brainfuck] can raise are the two bracket
    errors and the encoding error of the input: an unmatched-close error
    names the position of a close bracket of the filtered program, an
    unmatched-open error names the position of an open bracket, and the
    encoding error occurs only when the input has a character outside
    0-255.  In particular no index, key or [chr] error escapes. *)
Theorem X13_run_exceptions (fuel : nat) (code inp : str) (e : exn) :
  run_brainfuck fuel code inp = Raised e →
  (∃ p, e = UnmatchedClose p ∧ at_pos (filter_commands code) p 93) ∨
  (∃ p, e = UnmatchedOpen p ∧ at_pos (filter_commands code) p 91) ∨
  (e = UnicodeEncodeError ∧ ¬ Forall byte_range inp).
Proof. apply run_brainfuck_exceptions. Qed.

(** An unmatched close bracket behind a comment. *)
Lemma X13_run_exceptions_witness :
  (∃ p, UnmatchedClose 1 = UnmatchedClose p ∧ at_pos (filter_commands (lit "+ ]")) p 93) ∨
  (∃ p, UnmatchedClose 1 = UnmatchedOpen p ∧ at_pos (filter_commands (lit "+ ]")) p 91) ∨
  (UnmatchedClose 1 = UnicodeEncodeError ∧ ¬ Forall byte_range (lit "x")).
Proof.
  apply (X13_run_exceptions 3 (lit "+ ]") (lit "x") (UnmatchedClose 1)).
  vm_compute. reflexivity.
Defined.

(** ** What one iteration changes *)

(** Effects of the loop body on the tape length, the output, the input
    buffer and the program counter. *)
Lemma dispatch_effects jumps c st st' :
  state_ok st → dispatch jumps c st = Ok st' →
  (length (tape st) ≤ length (tape st') ≤ S (length (tape st)))%nat ∧
  ((c = 46 ∧ ∃ v, byte_range v ∧ out_chars st' = out_chars st ++ [v]) ∨
   (c ≠ 46 ∧ out_chars st' = out_chars st)) ∧
  ((c = 44 ∧ in_buf st' = tail (in_buf st)) ∨ (c ≠ 44 ∧ in_buf st' = in_buf st)) ∧
  (pc st' = pc st ∨ ((c = 91 ∨ c = 93) ∧ jumps !! pc st = Some (pc st'))).
Proof.
  intros Hok. destruct (current_cell st Hok) as (v & Hv & Hget).
  pose proof Hok as [Ht Hp Hpc Hi].
  assert (Hset : ∀ x st1, set_cell st x = Ok st1 →
    length (tape st1) = length (tape st) ∧ out_chars st1 = out_chars st ∧
    in_buf st1 = in_buf st ∧ pc st1 = pc st).
  { intros x st1. unfold set_cell. rewrite py_setitem_ok by done. cbn.
    intros [= <-]. cbn. by rewrite length_insert. }
  assert (Hjmp : ∀ st1, (j ← dict_getitem jumps (pc st); Ok (set_pc st j)) = Ok st1 →
    tape st1 = tape st ∧ out_chars st1 = out_chars st ∧ in_buf st1 = in_buf st ∧
    jumps !! pc st = Some (pc st1)).
  { intros st1. unfold dict_getitem. destruct (jumps !! pc st) as [j |]; [| done].
    cbn. by intros [= <-]. }
  unfold dispatch. rewrite Hget. cbn [mbind result_bind bind].
  destruct (Z.eqb_spec c 62).
  { intros [= <-]. cbn.
    assert (length (tape st) ≤
            length (if (ptr st + 1 =? len (tape st))%Z then tape st ++ [0%Z] else tape st)
            ≤ S (length (tape st)))%nat
      by (destruct (ptr st + 1 =? len (tape st)); rewrite ?length_app; cbn; lia).
    split_and!; effects. }
  destruct (Z.eqb_spec c 60).
  { destruct (ptr st =? 0); intros [= <-]; cbn; split_and!; effects. }
  destruct (Z.eqb_spec c 43).
  { intros (Hl & Ho & Hin & Hc)%Hset. rewrite Hl. split_and!; effects. }
  destruct (Z.eqb_spec c 45).
  { intros (Hl & Ho & Hin & Hc)%Hset. rewrite Hl. split_and!; effects. }
  destruct (Z.eqb_spec c 46).
  { rewrite (chr_byte v Hv). cbn. intros [= <-]. cbn.
    split_and!; [lia | lia | | effects ..].
    left. split; [done |]. by exists v. }
  destruct (Z.eqb_spec c 44).
  { destruct (in_buf st) as [| b rest] eqn:Ein.
    - intros (Hl & Ho & Hin & Hc)%Hset. rewrite Hl, Hin, ?Ein. split_and!; effects.
    - rewrite py_setitem_ok by done. cbn. intros [= <-]. cbn. rewrite length_insert.
      split_and!; effects. }
  destruct (Z.eqb_spec c 91).
  { destruct (v =? 0).
    - intros (Hl & Ho & Hin & Hc)%Hjmp. rewrite Hl. split_and!; effects.
    - intros [= <-]. split_and!; effects. }
  destruct (Z.eqb_spec c 93).
  { destruct (negb (v =? 0)).
    - intros (Hl & Ho & Hin & Hc)%Hjmp. rewrite Hl. split_and!; effects.
    - intros [= <-]. split_and!; effects. }
  intros [= <-]. split_and!; effects.
Qed.

Lemma step_inv filtered jumps st st' :
  0 ≤ pc st → step filtered jumps st = Ok st' →
  ∃ c st0, filtered !! Z.to_nat (pc st) = Some c ∧ dispatch jumps c st = Ok st0 ∧
           st' = set_pc st0 (pc st0 + 1).
Proof.
  intros Hpc. unfold step.
  destruct (py_getitem filtered (pc st)) as [c |] eqn:Hc; [| done]. cbn.
  destruct (dispatch jumps c st) as [st0 |] eqn:Hd; [| done]. cbn.
  intros [= <-]. exists c, st0. split_and!; try done. by apply py_getitem_inv.
Qed.

(** Along the loop the tape does not shrink, the output is only extended
    (by bytes) and the input buffer is only consumed from the front. *)
Lemma reaches_monotone filtered jumps st st' :
  jumps_ok filtered jumps → reaches filtered jumps st st' → state_ok st →
  (length (tape st) ≤ length (tape st'))%nat ∧
  (∃ k, out_chars st' = out_chars st ++ k ∧ Forall byte_range k) ∧
  in_buf st' `suffix_of` in_buf st.
Proof.
  intros Hj. induction 1 as [| st st1 st2 Hpc Hstep _ IH]; intros Hok.
  - split_and!; [done | exists []; by rewrite app_nil_r | done].
  - destruct (step_ok filtered jumps st Hj Hok Hpc) as (st1' & Hs & Hok1).
    assert (st1' = st1) as -> by congruence.
    destruct (step_inv _ _ _ _ (ok_pc _ Hok) Hstep) as (c & st0 & _ & Hd & ->).
    destruct (dispatch_effects _ _ _ _ Hok Hd) as ([Hl _] & Hout & Hin & _).
    destruct (IH Hok1) as (IHl & (k & IHo & IHk) & IHi). cbn in *.
    split_and!.
    + lia.
    + destruct Hout as [(_ & v & Hv & Ho) | (_ & Ho)]; rewrite Ho in IHo.
      * exists (v :: k). split; [by rewrite IHo, <- app_assoc | by constructor].
      * by exists k.
    + destruct Hin as [(_ & Hi) | (_ & Hi)]; rewrite Hi in IHi; [| done].
      etrans; [exact IHi |]. destruct (in_buf st); [done | by apply suffix_cons_r].
Qed.

(** X14: every character of the string [run_brainfuck] returns has a code
    point in 0-255. *)
Theorem X14_output_is_bytes (fuel : nat) (code inp out : str) :
  run_brainfuck fuel code inp = Returned out → Forall byte_range out.
Proof.
  unfold run_brainfuck.
  destruct (prepare code inp) as [[[filtered jumps] buf] | e] eqn:Hp; [| done].
  destruct (prepare_ok _ _ _ _ _ Hp) as [Hj Hok].
  intros (st' & Hr & _ & <-)%exec_returned.
  destruct (reaches_monotone _ _ _ _ Hj Hr Hok) as (_ & (k & -> & Hk) & _). done.
Qed.

(** The echo program on the input ["A"]. *)
Lemma X14_output_is_bytes_witness : Forall byte_range (lit "A").
Proof.
  apply (X14_output_is_bytes 5 (lit ",.") (lit "A") (lit "A")). vm_compute. reflexivity.
Defined.

(** X15: from any state the loop reaches to any later one, the tape does
    not get shorter, the output so far stays a prefix of the later output,
    and the later input buffer is a suffix of the earlier one. *)
Theorem X15_loop_is_monotone
    (code inp filtered : str) (jumps : gmap Z Z) (buf : list Z) (st st' : state) :
  prepare code inp = Ok (filtered, jumps, buf) →
  reaches filtered jumps (initial_state buf) st →
  reaches filtered jumps st st' →
  (length (tape st) ≤ length (tape st'))%nat ∧
  out_chars st `prefix_of` out_chars st' ∧
  in_buf st' `suffix_of` in_buf st.
Proof.
  intros Hp Hr Hr'. destruct (prepare_ok _ _ _ _ _ Hp) as [Hj Hok0].
  pose proof (reaches_ok _ _ _ _ Hj Hr Hok0) as Hok.
  destruct (reaches_monotone _ _ _ _ Hj Hr' Hok) as (Hl & (k & Ho & _) & Hi).
  split_and!; [done | by exists k | done].
Qed.

(** The echo program on ["AB"], from the start to the state after both
    instructions. *)
Lemma X15_loop_is_monotone_witness :
  (length [0] ≤ length [65])%nat ∧
  [] `prefix_of` [65] ∧ [66] `suffix_of` [65; 66].
Proof.
  assert (Hp : prepare (lit ",.") (lit "AB") = Ok (lit ",.", ∅, [65; 66]))
    by (vm_compute; reflexivity).
  assert (Hr : reaches (lit ",.") ∅ (initial_state [65; 66]) (State [65] 0 2 [65] [66])).
  { eapply reaches_step; [reflexivity | vm_compute; reflexivity |].
    eapply reaches_step; [reflexivity | vm_compute; reflexivity | apply reaches_refl]. }
  exact (X15_loop_is_monotone (lit ",.") (lit "AB") (lit ",.") ∅ [65; 66]
           (initial_state [65; 66]) (State [65] 0 2 [65] [66])
           Hp (reaches_refl _ _ _) Hr).
Defined.

(** ** Programs without loops *)

Lemma count_dots_cons c l :
  count_dots (c :: l) = ((if decide (c = 46%Z) then 1 else 0) + count_dots l)%nat.
Proof.
  unfold count_dots. destruct (decide (c = 46)).
  - by rewrite filter_cons_True.
  - by rewrite filter_cons_False.
Qed.

Lemma count_dots_filter_commands code :
  count_dots (filter_commands code) = count_dots code.
Proof.
  unfold filter_commands. induction code as [| c code IH]; [done |].
  rewrite count_dots_cons. destruct (decide (c ∈ BF_COMMANDS)) as [Hc | Hc].
  - rewrite filter_cons_True by done. by rewrite count_dots_cons, IH.
  - rewrite filter_cons_False by done. rewrite IH.
    destruct (decide (c = 46)) as [-> | ?]; [| done].
    destruct Hc. by vm_compute.
Qed.

Lemma Forall_filter_commands (P : Z → Prop) code :
  Forall P code → Forall P (filter_commands code).
Proof.
  rewrite !Forall_forall. intros H c Hc.
  apply list_elem_of_filter in Hc as [_ Hc]. by apply H.
Qed.

(** Without brackets every iteration advances the program counter by one,
    so the loop ends after as many iterations as instructions are left. *)
Lemma exec_straight filtered jumps :
  jumps_ok filtered jumps →
  Forall (λ c, c ≠ 91 ∧ c ≠ 93) filtered →
  ∀ n st k,
    state_ok st → pc st + Z.of_nat n = len filtered →
    ∃ out, exec filtered jumps (n + k) st = Returned out ∧
           length out =
           (length (out_chars st) + count_dots (drop (Z.to_nat (pc st)) filtered))%nat.
Proof.
  intros Hj Hnb. induction n as [| n IH]; intros st k Hok Hpc.
  - exists (out_chars st). split; [apply exec_halt; lia |].
    rewrite drop_ge by (unfold len in Hpc; lia). cbn. lia.
  - assert (Hlt : pc st < len filtered) by lia.
    destruct (step_ok filtered jumps st Hj Hok Hlt) as (st1 & Hs & Hok1).
    destruct (step_inv _ _ _ _ (ok_pc _ Hok) Hs) as (c & st0 & Hc & Hd & ->).
    destruct (dispatch_effects _ _ _ _ Hok Hd) as (_ & Hout & _ & Hpc0).
    pose proof (Forall_lookup_1 _ _ _ _ Hnb Hc) as [N91 N93].
    destruct Hpc0 as [Hpc0 | [[? | ?] _]]; [| done | done].
    cbn [Nat.add exec]. destruct (Z.ltb_spec (pc st) (len filtered)); [| lia].
    rewrite Hs. destruct (IH _ k Hok1) as (out & Hex & Hlen).
    { cbn. lia. }
    exists out. split; [done |]. rewrite Hlen. cbn [set_pc pc out_chars].
    rewrite (drop_S _ _ _ Hc), count_dots_cons.
    replace (Z.to_nat (pc st0 + 1)) with (S (Z.to_nat (pc st)))
      by (pose proof (ok_pc _ Hok); lia).
    destruct Hout as [(-> & v & _ & ->) | (Hn & ->)].
    + rewrite length_app, decide_True by done. cbn [length]. lia.
    + by rewrite decide_False.
Qed.

(** X16: a program without brackets always halts: on input of byte range
    characters and with fuel of at least the number of its instructions,
    [run_brainfuck] returns, and the returned string has exactly one
    character per [.] of the source. *)
Theorem X16_loop_free_programs_halt (code inp : str) (fuel : nat) :
  Forall (λ c, c ≠ 91 ∧ c ≠ 93) code →
  Forall byte_range inp →
  (length (filter_commands code) ≤ fuel)%nat →
  ∃ out, run_brainfuck fuel code inp = Returned out ∧ length out = count_dots code.
Proof.
  intros Hnb Hinp Hfuel.
  assert (Hnb' : Forall (λ c, c ≠ 91 ∧ c ≠ 93) (filter_commands code)).
  { by apply Forall_filter_commands. }
  pose proof (build_jumps_depth (filter_commands code)) as Hd.
  assert (Hdepth : ∀ l i d, Forall (λ c, c ≠ 91 ∧ c ≠ 93) l → bracket_depth l i d = Ok d).
  { induction l as [| c l IH]; intros i d Hl; [done |].
    apply Forall_cons in Hl as [[? ?] Hl]. cbn [bracket_depth].
    destruct (Z.eqb_spec c 91); [done |]. destruct (Z.eqb_spec c 93); [done |]. by apply IH. }
  rewrite Hdepth in Hd by done. destruct Hd as [jumps Hb].
  unfold run_brainfuck. rewrite (prepare_intro _ _ _ Hb Hinp).
  destruct (exec_straight _ _ (build_jumps_ok _ _ Hb) Hnb'
              (length (filter_commands code)) (initial_state inp)
              (fuel - length (filter_commands code))%nat
              (initial_state_ok _ Hinp)) as (out & Hex & Hlen); [done |].
  exists out. replace fuel with (length (filter_commands code) +
    (fuel - length (filter_commands code)))%nat at 1 by lia.
  split; [done |]. rewrite Hlen.
  change (Z.to_nat (pc (initial_state inp))) with 0%nat.
  by rewrite drop_0, count_dots_filter_commands.
Qed.

(** A commented program that moves, reads and prints twice. *)
Lemma X16_loop_free_programs_halt_witness :
  ∃ out, run_brainfuck 9 (lit ">,. print .<") (lit "A") = Returned out ∧
         length out = count_dots (lit ">,. print .<").
Proof.
  apply (X16_loop_free_programs_halt (lit ">,. print .<") (lit "A") 9).
  - repeat constructor; discriminate.
  - repeat constructor; unfold byte_range; cbn; lia.
  - vm_compute. lia.
Defined.

(** ** Programs without input instructions *)

Lemma py_getitem_elem_of {A} (l : list A) (i : Z) (x : A) :
  py_getitem l i = Ok x → x ∈ l.
Proof.
  unfold py_getitem. destruct (_ <? 0); [done |].
  destruct (l !! _) eqn:E; [| done]. intros [= <-]. by eapply list_elem_of_lookup_2.
Qed.

Lemma dispatch_with_in_buf jumps c st buf :
  c ≠ 44 →
  dispatch jumps c (with_in_buf st buf) =
  (st' ← dispatch jumps c st; Ok (with_in_buf st' buf)).
Proof.
  intros Hc. unfold dispatch, set_cell, set_pc, with_in_buf.
  cbn [tape ptr pc out_chars in_buf].
  destruct (c =? 62); [done |].
  destruct (c =? 60); [by destruct (ptr st =? 0) |].
  destruct (py_getitem (tape st) (ptr st)) as [v |]; cbn [mbind result_bind bind].
  - destruct (c =? 43); [by destruct (py_setitem _ _ _) |].
    destruct (c =? 45); [by destruct (py_setitem _ _ _) |].
    destruct (c =? 46); [by destruct (chr v) |].
    destruct (Z.eqb_spec c 44); [done |].
    destruct (c =? 91); [destruct (v =? 0); [by destruct (dict_getitem _ _) | done] |].
    destruct (c =? 93); [destruct (negb (v =? 0)); [by destruct (dict_getitem _ _) | done] |].
    done.
  - destruct (c =? 43); [done |]. destruct (c =? 45); [done |].
    destruct (c =? 46); [done |]. destruct (Z.eqb_spec c 44); [done |].
    destruct (c =? 91); [done |]. destruct (c =? 93); done.
Qed.

Lemma exec_with_in_buf filtered jumps fuel : ∀ st buf,
  Forall (λ c, c ≠ 44) filtered →
  exec filtered jumps fuel (with_in_buf st buf) = exec filtered jumps fuel st.
Proof.
  induction fuel as [| fuel IH]; intros st buf Hnc; cbn [exec with_in_buf pc out_chars];
    destruct (pc st <? len filtered); try done.
  unfold step. cbn [with_in_buf pc].
  destruct (py_getitem filtered (pc st)) as [c |] eqn:Hc; [| done].
  cbn [mbind result_bind bind].
  assert (c ≠ 44).
  { rewrite Forall_forall in Hnc. by eapply Hnc, py_getitem_elem_of. }
  change {| tape := tape st; ptr := ptr st; pc := pc st;
            out_chars := out_chars st; in_buf := buf |} with (with_in_buf st buf).
  rewrite dispatch_with_in_buf by done.
  destruct (dispatch jumps c st) as [st0 |]; [| done]. cbn [mbind result_bind bind].
  change (set_pc (with_in_buf st0 buf) (pc (with_in_buf st0 buf) + 1))
    with (with_in_buf (set_pc st0 (pc st0 + 1)) buf).
  by apply IH.
Qed.

(** X17: a program without the input instruction [,] does not depend on
    its input: on any two inputs of byte range characters it has the same
    outcome (the same returned string, the same exception, or both still
    running) at every fuel. *)
Theorem X17_input_ignored_without_comma (code inp1 inp2 : str) (fuel : nat) :
  Forall (λ c, c ≠ 44) code →
  Forall byte_range inp1 → Forall byte_range inp2 →
  run_brainfuck fuel code inp1 = run_brainfuck fuel code inp2.
Proof.
  intros Hnc H1 H2. unfold run_brainfuck, prepare.
  destruct (build_jumps (filter_commands code)) as [jumps | e]; [| done].
  cbn. rewrite !encode_latin1_ok by done. cbn.
  change (initial_state inp1) with (with_in_buf (initial_state inp2) inp1).
  apply exec_with_in_buf. by apply Forall_filter_commands.
Qed.

(** A counting loop run on two inputs. *)
Lemma X17_input_ignored_without_comma_witness :
  run_brainfuck 50 (lit "++[>+<-]>.") (lit "A") =
  run_brainfuck 50 (lit "++[>+<-]>.") (lit "zz").
Proof.
  apply (X17_input_ignored_without_comma (lit "++[>+<-]>.") (lit "A") (lit "zz") 50).
  - repeat constructor; discriminate.
  - repeat constructor; unfold byte_range; cbn; lia.
  - repeat constructor; unfold byte_range; cbn; lia.
Defined.

(** ** The exceptions of [decode_from_hex] *)

Lemma fromhex_raises n : ∀ h e,
  (length h ≤ n)%nat → fromhex h = Raise e → e = FromhexValueError.
Proof.
  induction n as [| n IH]; intros h e Hlen; (destruct h as [| c h]; [done |]);
    cbn [length] in Hlen; [lia |].
  cbn [fromhex]. destruct (is_space c); [apply IH; lia |].
  destruct (hexval c); [| by intros [= <-]].
  destruct h as [| d h]; [by intros [= <-] |].
  destruct (hexval d); [| by intros [= <-]].
  destruct (fromhex h) as [b | e'] eqn:Eh; [done |]. intros [= <-].
  apply (IH h); [cbn [length] in Hlen; lia | done].
Qed.

Lemma hex_to_brainfuck_raises h e :
  hex_to_brainfuck h = Raise e → e = FromhexValueError ∨ e = UnicodeDecodeError.
Proof.
  unfold hex_to_brainfuck. destruct (fromhex h) as [b | e'] eqn:Eh; cbn.
  - unfold decode_ascii. destruct (forallb _ b); [done |]. intros [= <-]. by right.
  - intros [= <-]. left. by apply (fromhex_raises (length h) h).
Qed.

(** X18: the exceptions [decode_from_hex] can raise are the hex error of
    [bytes.fromhex], the ASCII decode error, and the two bracket errors of
    the decoded program; the input encoding error cannot occur, the input
    being empty. *)
Theorem X18_decode_exceptions (fuel : nat) (h : str) (e : exn) :
  decode_from_hex fuel h = Raised e →
  e = FromhexValueError ∨ e = UnicodeDecodeError ∨
  (∃ p, e = UnmatchedClose p) ∨ (∃ p, e = UnmatchedOpen p).
Proof.
  unfold decode_from_hex. destruct (hex_to_brainfuck h) as [bf | e'] eqn:Hh.
  - intros [(p & -> & _) | [(p & -> & _) | (_ & Hn)]]%run_brainfuck_exceptions.
    + right. right. left. by exists p.
    + right. right. right. by exists p.
    + destruct Hn. constructor.
  - intros [= <-]. destruct (hex_to_brainfuck_raises _ _ Hh) as [-> | ->]; auto.
Qed.

(** The hex string of ["]"]. *)
Lemma X18_decode_exceptions_witness :
  UnmatchedClose 0 = FromhexValueError ∨ UnmatchedClose 0 = UnicodeDecodeError ∨
  (∃ p, UnmatchedClose 0 = UnmatchedClose p) ∨ (∃ p, UnmatchedClose 0 = UnmatchedOpen p).
Proof.
  apply (X18_decode_exceptions 3 (lit "5d") (UnmatchedClose 0)). vm_compute. reflexivity.
Defined.

(** ** One iteration of the loop *)

(** X19: in every state the loop reaches before the end of the program,
    the next iteration succeeds on the instruction [c] at the program
    counter, and: the tape grows by at most one cell; the output gets one
    more byte if [c] is [.] and is unchanged otherwise; the input buffer
    loses its front element (if any) if [c] is [,] and is unchanged
    otherwise; the program counter advances by one, or, on a bracket, to
    one after the position the jump table gives for it. *)
Theorem X19_one_iteration
    (code inp filtered : str) (jumps : gmap Z Z) (buf : list Z) (st : state) :
  prepare code inp = Ok (filtered, jumps, buf) →
  reaches filtered jumps (initial_state buf) st →
  pc st < len filtered →
  ∃ c st', at_pos filtered (pc st) c ∧ step filtered jumps st = Ok st' ∧
    (length (tape st) ≤ length (tape st') ≤ S (length (tape st)))%nat ∧
    ((c = 46 ∧ ∃ v, byte_range v ∧ out_chars st' = out_chars st ++ [v]) ∨
     (c ≠ 46 ∧ out_chars st' = out_chars st)) ∧
    ((c = 44 ∧ in_buf st' = tail (in_buf st)) ∨ (c ≠ 44 ∧ in_buf st' = in_buf st)) ∧
    (pc st' = pc st + 1 ∨
     ((c = 91 ∨ c = 93) ∧ ∃ j, jumps !! pc st = Some j ∧ pc st' = j + 1)).
Proof.
  intros Hp Hr Hlt. destruct (prepare_ok _ _ _ _ _ Hp) as [Hj Hok0].
  pose proof (reaches_ok _ _ _ _ Hj Hr Hok0) as Hok.
  destruct (step_ok filtered jumps st Hj Hok Hlt) as (st1 & Hs & _).
  destruct (step_inv _ _ _ _ (ok_pc _ Hok) Hs) as (c & st0 & Hc & Hd & ->).
  destruct (dispatch_effects _ _ _ _ Hok Hd) as (Hl & Hout & Hin & Hpc).
  exists c, (set_pc st0 (pc st0 + 1)). unfold set_pc. cbn [tape out_chars in_buf pc].
  refine (conj _ (conj Hs (conj Hl (conj Hout (conj Hin _))))).
  - split; [by destruct Hok | done].
  - destruct Hpc as [Hpc | [Hbr Hjp]]; [left; by rewrite Hpc |]. right. split; [done |].
    by exists (pc st0).
Qed.

(** The first iteration of ["[-]."]: the open bracket at cell value 0
    jumps behind the close bracket. *)
Lemma X19_one_iteration_witness :
  ∃ c st', at_pos (lit "[-].") 0 c ∧
    step (lit "[-].") {[0 := 2; 2 := 0]} (initial_state []) = Ok st' ∧
    (length [0] ≤ length (tape st') ≤ S (length [0]))%nat ∧
    ((c = 46 ∧ ∃ v, byte_range v ∧ out_chars st' = [] ++ [v]) ∨
     (c ≠ 46 ∧ out_chars st' = [])) ∧
    ((c = 44 ∧ in_buf st' = tail []) ∨ (c ≠ 44 ∧ in_buf st' = [])) ∧
    (pc st' = 0 + 1 ∨
     ((c = 91 ∨ c = 93) ∧
      ∃ j, ({[0 := 2; 2 := 0]} : gmap Z Z) !! 0 = Some j ∧ pc st' = j + 1)).
Proof.
  apply (X19_one_iteration (lit "[-].") [] (lit "[-].") {[0 := 2; 2 := 0]} []
           (initial_state [])).
  - vm_compute. reflexivity.
  - apply reaches_refl.
  - reflexivity.
Defined.

(** ** Injectivity and composition of the encoders *)

(** X20: [encode_to_hex] is injective on texts of byte range characters:
    two such texts with the same hex string are equal. *)
Theorem X20_encode_injective (T1 T2 : str) :
  Forall byte_range T1 → Forall byte_range T2 →
  encode_to_hex T1 = encode_to_hex T2 → T1 = T2.
Proof.
  intros H1 H2 Heq.
  set (fuel := (length (text_to_brainfuck T1) + length (text_to_brainfuck T2))%nat).
  destruct (encode_decode T1 fuel H1) as [E1 D1]; [lia |].
  destruct (encode_decode T2 fuel H2) as [E2 D2]; [lia |].
  rewrite E1, E2 in Heq. injection Heq as Heq. rewrite Heq in D1. congruence.
Qed.

(** The text ["A"] written in two ways. *)
Lemma X20_encode_injective_witness : lit "A" = [65].
Proof.
  assert (H : Forall byte_range (lit "A"))
    by (repeat constructor; unfold byte_range; cbn; lia).
  exact (X20_encode_injective (lit "A") [65] H H eq_refl).
Defined.

Lemma bytes_hex_app b1 b2 : bytes_hex (b1 ++ b2) = bytes_hex b1 ++ bytes_hex b2.
Proof.
  induction b1 as [| x b1 IH]; [done |].
  cbn [app]. by rewrite !bytes_hex_cons, IH.
Qed.

(** X21: the hex encoding of a concatenation is the concatenation of the
    hex encodings, whenever both parts encode. *)
Theorem X21_to_hex_concat (p q hp hq : str) :
  brainfuck_to_hex p = Ok hp → brainfuck_to_hex q = Ok hq →
  brainfuck_to_hex (p ++ q) = Ok (hp ++ hq).
Proof.
  intros (Hp & ->)%brainfuck_to_hex_inv (Hq & ->)%brainfuck_to_hex_inv.
  unfold brainfuck_to_hex. rewrite encode_ascii_ok by by apply Forall_app.
  cbn. by rewrite bytes_hex_app.
Qed.

(** The sources ["+"] and ["."]. *)
Lemma X21_to_hex_concat_witness :
  brainfuck_to_hex (lit "+" ++ lit ".") = Ok (lit "2b" ++ lit "2e").
Proof.
  exact (X21_to_hex_concat (lit "+") (lit ".") (lit "2b") (lit "2e") eq_refl eq_refl).
Defined.

(** * The input buffer *)

Lemma filter_commands_id l :
  Forall (λ c, c ∈ BF_COMMANDS) l → filter_commands l = l.
Proof.
  induction 1 as [| c l Hc _ IH]; [done |].
  unfold filter_commands in *. rewrite filter_cons_True by done. by rewrite IH.
Qed.

Lemma bracket_depth_no_brackets l : ∀ i depth,
  Forall (λ c, c ≠ 91 ∧ c ≠ 93) l → bracket_depth l i depth = Ok depth.
Proof.
  induction l as [| c l IH]; intros i depth Hl; [done |].
  apply Forall_cons in Hl as [[? ?] Hl]. cbn [bracket_depth].
  destruct (Z.eqb_spec c 91); [done |]. destruct (Z.eqb_spec c 93); [done |].
  by apply IH.
Qed.

(** The program [",." * n]. *)
Lemma echo_program_cons n :
  str_mul (lit ",.") (Z.of_nat (S n)) = 44 :: 46 :: str_mul (lit ",.") (Z.of_nat n).
Proof. unfold str_mul. by rewrite !Nat2Z.id. Qed.

Lemma echo_program_commands n :
  Forall (λ c, c ∈ BF_COMMANDS) (str_mul (lit ",.") (Z.of_nat n)) ∧
  Forall (λ c, c ≠ 91 ∧ c ≠ 93) (str_mul (lit ",.") (Z.of_nat n)) ∧
  length (str_mul (lit ",.") (Z.of_nat n)) = (2 * n)%nat.
Proof.
  induction n as [| n (IH1 & IH2 & IH3)]; [by repeat constructor |].
  rewrite echo_program_cons. split_and!.
  - repeat apply Forall_cons_2; [by vm_compute | by vm_compute | done].
  - repeat apply Forall_cons_2; [done | done | done].
  - cbn [length]. rewrite IH3. lia.
Qed.

(** Running [n] copies of [,.]: each pair moves the front of the input
    buffer to the output, or a 0 once the buffer is empty. *)
Lemma exec_echo n : ∀ pre jumps fuel v out inb,
  Forall byte_range inb → (2 * n ≤ fuel)%nat →
  exec (pre ++ str_mul (lit ",.") (Z.of_nat n)) jumps fuel
    (State [v] 0 (len pre) out inb) =
  Returned (out ++ take n inb ++ replicate (n - length inb) 0).
Proof.
  induction n as [| n IH]; intros pre jumps fuel v out inb Hinb Hfuel.
  - change (str_mul (lit ",.") (Z.of_nat 0)) with (@nil Z).
    rewrite exec_halt by (rewrite app_nil_r; cbn; lia).
    cbn. by rewrite app_nil_r.
  - rewrite echo_program_cons.
    destruct fuel as [| [| fuel]]; [lia | lia |].
    set (b := match inb with b :: _ => b | [] => 0 end).
    assert (Hb : byte_range b).
    { unfold b. destruct Hinb; [unfold byte_range; lia | done]. }
    assert (Hcomma : dispatch jumps 44 (State [v] 0 (len pre) out inb) =
                     Ok (State [b] 0 (len pre) out (tail inb))).
    { unfold b. destruct inb as [| b' rest].
      - by rewrite dispatch_comma_nil by (cbn; done).
      - by rewrite (dispatch_comma_cons _ _ b' rest) by (cbn; done). }
    erewrite exec_step; [| done | exact Hcomma].
    unfold set_pc. cbn [tape ptr pc out_chars in_buf].
    replace (len pre + 1) with (len (pre ++ [44])) by (by rewrite len_app).
    replace (pre ++ 44 :: 46 :: str_mul (lit ",.") (Z.of_nat n))
      with ((pre ++ [44]) ++ 46 :: str_mul (lit ",.") (Z.of_nat n))
      by (by rewrite <- app_assoc).
    erewrite exec_step; [| done |]; cycle 1.
    { by apply (dispatch_dot jumps (State [b] 0 _ out (tail inb)) b). }
    unfold set_pc. cbn [tape ptr pc out_chars in_buf].
    replace (len (pre ++ [44]) + 1) with (len ((pre ++ [44]) ++ [46]))
      by (by rewrite (len_app _ [46])).
    replace ((pre ++ [44]) ++ 46 :: str_mul (lit ",.") (Z.of_nat n))
      with (((pre ++ [44]) ++ [46]) ++ str_mul (lit ",.") (Z.of_nat n))
      by (by rewrite <- (app_assoc _ [46])).
    rewrite IH; [| destruct Hinb; [constructor | done] | lia].
    f_equal. rewrite <- app_assoc. f_equal. unfold b.
    destruct inb as [| b' rest]; cbn [tail take length app Nat.sub replicate].
    + by rewrite take_nil, Nat.sub_0_r.
    + done.
Qed.

Lemma run_echo_program n inp fuel :
  Forall byte_range inp → (2 * n ≤ fuel)%nat →
  run_brainfuck fuel (str_mul (lit ",.") (Z.of_nat n)) inp =
  Returned (take n inp ++ replicate (n - length inp) 0).
Proof.
  intros Hinp Hfuel.
  destruct (echo_program_commands n) as (Hcmd & Hnb & _).
  pose proof (build_jumps_depth (str_mul (lit ",.") (Z.of_nat n))) as Hd.
  rewrite bracket_depth_no_brackets in Hd by done. destruct Hd as [jumps Hb].
  unfold run_brainfuck.
  rewrite (prepare_intro _ inp jumps) by (by rewrite ?filter_commands_id).
  rewrite filter_commands_id by done.
  apply (exec_echo n [] jumps fuel 0 [] inp Hinp Hfuel).
Qed.

(** C10: when every character of [inp] has a code point in 0-255 (and the
    program passes bracket validation), the input buffer is exactly the
    sequence of those code points; an input instruction moves the front
    of the buffer into the current cell, or stores 0 once the buffer is
    empty; when some character of [inp] has a code point above 255, [run]
    raises an encoding error once bracket validation has passed (a
    bracket error comes first), whatever the fuel, so before any
    instruction executes.  The loop starts from the state whose buffer is
    [inp]; in every state it reaches the buffer is a suffix of [inp]; and
    the run of [n] copies of [,.] returns the first [n] code points of
    [inp] in order, followed by a 0 for each read past its end. *)
Theorem C10_input_buffer :
  (∀ code inp jumps,
     build_jumps (filter_commands code) = Ok jumps → Forall byte_range inp →
     prepare code inp = Ok (filter_commands code, jumps, inp)) ∧
  (∀ jumps st b rest,
     in_buf st = b :: rest → 0 ≤ ptr st < len (tape st) →
     dispatch jumps 44 st =
     Ok (State (<[Z.to_nat (ptr st) := b]> (tape st)) (ptr st) (pc st)
               (out_chars st) rest)) ∧
  (∀ jumps st,
     in_buf st = [] → 0 ≤ ptr st < len (tape st) →
     dispatch jumps 44 st =
     Ok (State (<[Z.to_nat (ptr st) := 0]> (tape st)) (ptr st) (pc st)
               (out_chars st) [])) ∧
  (∀ fuel code inp,
     Exists (λ c, 255 < c) inp →
     run_brainfuck fuel code inp =
     match build_jumps (filter_commands code) with
     | Ok _ => Raised UnicodeEncodeError
     | Raise e => Raised e
     end) ∧
  (∀ fuel code inp filtered jumps buf,
     prepare code inp = Ok (filtered, jumps, buf) →
     buf = inp ∧ in_buf (initial_state buf) = inp ∧
     run_brainfuck fuel code inp = exec filtered jumps fuel (initial_state buf)) ∧
  (∀ code inp filtered jumps buf st,
     prepare code inp = Ok (filtered, jumps, buf) →
     reaches filtered jumps (initial_state buf) st →
     in_buf st `suffix_of` inp) ∧
  (∀ n inp fuel,
     Forall byte_range inp → (2 * n ≤ fuel)%nat →
     run_brainfuck fuel (str_mul (lit ",.") (Z.of_nat n)) inp =
     Returned (take n inp ++ replicate (n - length inp) 0)).
Proof.
  split_and!.
  - apply prepare_intro.
  - apply dispatch_comma_cons.
  - apply dispatch_comma_nil.
  - intros fuel code inp Hex. unfold run_brainfuck, prepare.
    destruct (build_jumps (filter_commands code)) as [jumps | e]; [| done].
    cbn. by rewrite (encode_latin1_raises inp Hex).
  - intros fuel code inp filtered jumps buf Hp.
    pose proof (prepare_inv _ _ _ _ _ Hp) as (_ & _ & -> & _).
    split_and!; [done | done |]. unfold run_brainfuck. by rewrite Hp.
  - intros code inp filtered jumps buf st Hp Hr.
    destruct (prepare_ok _ _ _ _ _ Hp) as [Hj Hok].
    pose proof (prepare_inv _ _ _ _ _ Hp) as (_ & _ & -> & _).
    by destruct (reaches_monotone _ _ _ _ Hj Hr Hok) as (_ & _ & ?).
  - apply run_echo_program.
Qed.

(** Input ["A"], an exhausted buffer, a character above 255, and three
    reads of the two characters of ["AB"]. *)
Lemma C10_input_buffer_witness :
  prepare (lit ",.") (lit "A") = Ok (lit ",.", ∅, [65]) ∧
  dispatch ∅ 44 (State [0] 0 0 [] [65]) = Ok (State [65] 0 0 [] []) ∧
  dispatch ∅ 44 (State [9] 0 0 [] []) = Ok (State [0] 0 0 [] []) ∧
  run_brainfuck 5 (lit ",.") [256] = Raised UnicodeEncodeError ∧
  run_brainfuck 5 (lit ",.") (lit "A") = exec (lit ",.") ∅ 5 (initial_state [65]) ∧
  [66] `suffix_of` lit "AB" ∧
  run_brainfuck 6 (str_mul (lit ",.") 3) (lit "AB") = Returned [65; 66; 0].
Proof.
  destruct C10_input_buffer as (H1 & H2 & H3 & H4 & H5 & H6 & H7).
  assert (Hin : Forall byte_range (lit "A"))
    by (repeat constructor; unfold byte_range; cbn; lia).
  assert (Hin2 : Forall byte_range (lit "AB"))
    by (repeat constructor; unfold byte_range; cbn; lia).
  assert (Hex : Exists (λ c, 255 < c) [256]) by (apply Exists_cons_hd; lia).
  assert (Hptr : 0 ≤ 0 < 1) by lia.
  assert (Hp : prepare (lit ",.") (lit "A") = Ok (lit ",.", ∅, [65]))
    by exact (H1 (lit ",.") (lit "A") ∅ eq_refl Hin).
  assert (Hp2 : prepare (lit ",.") (lit "AB") = Ok (lit ",.", ∅, [65; 66]))
    by exact (H1 (lit ",.") (lit "AB") ∅ eq_refl Hin2).
  assert (Hr : reaches (lit ",.") ∅ (initial_state [65; 66]) (State [65] 0 1 [] [66])).
  { eapply reaches_step; [reflexivity | vm_compute; reflexivity | apply reaches_refl]. }
  assert (Hfuel : (2 * 3 ≤ 6)%nat) by lia.
  exact (conj Hp
          (conj (H2 ∅ (State [0] 0 0 [] [65]) 65 [] eq_refl Hptr)
            (conj (H3 ∅ (State [9] 0 0 [] []) eq_refl Hptr)
              (conj (H4 5%nat (lit ",.") [256] Hex)
                (conj (proj2 (proj2 (H5 5%nat _ _ _ _ _ Hp)))
                  (conj (H6 _ _ _ _ _ _ Hp2 Hr)
                        (H7 3%nat (lit "AB") 6%nat Hin2 Hfuel))))))).
Defined.
